(** * The agent client of the daily assistant: [askAgent]

    The web front end of the daily assistant talks to its agent through one
    function, [askAgent] (web/src/api.ts): it serialises [{ prompt }] with
    [JSON.stringify], posts it with [fetch] to a fixed local address and
    returns what [res.json()] decodes from the response.

    The function is embedded as a program over two awaited operations
    ([fetch] and [Response.json]); the platform functions it calls are
    modelled after ECMA-262 ([JSON.stringify], [JSON.parse]) on strings of
    UTF-16 code units.  The only part of the platform that is left abstract
    is IEEE-754 arithmetic: the type of numbers and its conversions from and
    to text are parameters of the development.

    A call is run to its end in a world that records the requests issued
    and answers them ([run]); overlapping calls are run by an event loop
    that interleaves their steps with the answers of the network
    ([exec]).  Both take [fetch] as a whole, with an engine whose strings
    have any length.  Below that, [run_http] runs a call on the wire, where
    [fetch] sends the HTTP requests, follows redirects and may need a CORS
    preflight, where the body of a response may be cut, and where
    [JSON.stringify] throws on a text longer than the longest string
    ([askAgent_bounded]). *)

From Stdlib Require Import List NArith ZArith Lia String Ascii Bool Arith.
Import ListNotations.

Local Open Scope N_scope.
Set Warnings "-register-all".

(* ================================================================== *)
(** ** Strings of UTF-16 code units *)

(** An ECMAScript string is a finite sequence of 16-bit code units. *)
Definition code_unit : Type := N.
Definition js_string : Type := list code_unit.

Definition is_code_unit (c : N) : bool := c <? 0x10000.
Definition is_js_string (s : list N) : bool := forallb is_code_unit s.

(** ASCII text as a string of code units. *)
Definition str (s : string) : js_string :=
  map N_of_ascii (list_ascii_of_string s).

(** The same, for writing JSON texts: every apostrophe of [s] stands for a
    quotation mark (U+0022). *)
Definition json_text (s : string) : js_string :=
  map (fun c => if c =? 0x27 then 0x22 else c) (str s).

Fixpoint js_string_eqb (a b : js_string) : bool :=
  match a, b with
  | [], [] => true
  | x :: a', y :: b' => (x =? y) && js_string_eqb a' b'
  | _, _ => false
  end.

Definition is_leading_surrogate (c : N) : bool :=
  (0xD800 <=? c) && (c <=? 0xDBFF).

Definition is_trailing_surrogate (c : N) : bool :=
  (0xDC00 <=? c) && (c <=? 0xDFFF).

Definition UTF16SurrogatePairToCodePoint (lead trail : code_unit) : N :=
  (lead - 0xD800) * 0x400 + (trail - 0xDC00) + 0x10000.

(** [StringToCodePoints]: a leading surrogate followed by a trailing one is
    one code point, every other code unit (a lone surrogate too) is a code
    point of its own. *)
Fixpoint StringToCodePoints (s : js_string) : list N :=
  match s with
  | [] => []
  | c :: t =>
      if is_leading_surrogate c then
        match t with
        | d :: t' =>
            if is_trailing_surrogate d
            then UTF16SurrogatePairToCodePoint c d :: StringToCodePoints t'
            else c :: StringToCodePoints t
        | [] => [c]
        end
      else c :: StringToCodePoints t
  end.

(** A code unit that is not a surrogate. *)
Definition no_surrogate (c : code_unit) : bool :=
  negb (is_leading_surrogate c) && negb (is_trailing_surrogate c).

(** The conversion of a string to a [USVString] (Web IDL), which [fetch]
    applies to a body given as a string: every surrogate that is not part
    of a pair becomes U+FFFD. *)
Fixpoint ToUSVString (s : js_string) : js_string :=
  match s with
  | [] => []
  | c :: t =>
      if is_leading_surrogate c then
        match t with
        | d :: t' =>
            if is_trailing_surrogate d then c :: d :: ToUSVString t'
            else 0xFFFD :: ToUSVString t
        | [] => [0xFFFD]
        end
      else if is_trailing_surrogate c then 0xFFFD :: ToUSVString t
      else c :: ToUSVString t
  end.

Definition UTF16EncodeCodePoint (cp : N) : js_string :=
  if cp <=? 0xFFFF then [cp]
  else [ (cp - 0x10000) / 0x400 + 0xD800 ; (cp - 0x10000) mod 0x400 + 0xDC00 ].

(* ================================================================== *)
(** ** [JSON.stringify] on strings: QuoteJSONString *)

(** Lower-case hexadecimal digit of a value below 16. *)
Definition hex_digit (d : N) : code_unit :=
  if d <? 10 then 0x30 + d else 0x61 + (d - 10).

(** [UnicodeEscape]: a backslash, [u] and four hexadecimal digits. *)
Definition UnicodeEscape (c : N) : js_string :=
  [ 0x5C; 0x75;
    hex_digit ((c / 0x1000) mod 16); hex_digit ((c / 0x100) mod 16);
    hex_digit ((c / 0x10) mod 16); hex_digit (c mod 16) ].

(** The two-character escapes of the table of JSON single character escape
    sequences. *)
Definition single_char_escape (c : N) : option code_unit :=
  if c =? 0x08 then Some 0x62        (* b: backspace *)
  else if c =? 0x09 then Some 0x74   (* t: tab *)
  else if c =? 0x0A then Some 0x6E   (* n: line feed *)
  else if c =? 0x0C then Some 0x66   (* f: form feed *)
  else if c =? 0x0D then Some 0x72   (* r: carriage return *)
  else if c =? 0x22 then Some 0x22   (* quotation mark *)
  else if c =? 0x5C then Some 0x5C   (* backslash *)
  else None.

Definition quote_code_point (c : N) : js_string :=
  match single_char_escape c with
  | Some e => [0x5C; e]
  | None =>
      if (c <? 0x20) || is_leading_surrogate c || is_trailing_surrogate c
      then UnicodeEscape c
      else UTF16EncodeCodePoint c
  end.

Definition QuoteJSONString (s : js_string) : js_string :=
  0x22 :: flat_map quote_code_point (StringToCodePoints s) ++ [0x22].

(* ================================================================== *)
(** ** [JSON.parse]: lexical part *)

Definition is_ws (c : code_unit) : bool :=
  (c =? 0x09) || (c =? 0x0A) || (c =? 0x0D) || (c =? 0x20).

Fixpoint skip_ws (s : js_string) : js_string :=
  match s with
  | c :: t => if is_ws c then skip_ws t else s
  | [] => []
  end.

Definition is_digit (c : code_unit) : bool := (0x30 <=? c) && (c <=? 0x39).

Definition hex_value (c : code_unit) : option N :=
  if (0x30 <=? c) && (c <=? 0x39) then Some (c - 0x30)
  else if (0x41 <=? c) && (c <=? 0x46) then Some (c - 0x41 + 10)
  else if (0x61 <=? c) && (c <=? 0x66) then Some (c - 0x61 + 10)
  else None.

Definition hex4 (h1 h2 h3 h4 : code_unit) : option code_unit :=
  match hex_value h1, hex_value h2, hex_value h3, hex_value h4 with
  | Some a, Some b, Some c, Some d => Some (((a * 16 + b) * 16 + c) * 16 + d)
  | _, _, _, _ => None
  end.

(** The character a two-character escape stands for (the u escape apart). *)
Definition unescape (e : code_unit) : option code_unit :=
  if e =? 0x22 then Some 0x22        (* quotation mark *)
  else if e =? 0x5C then Some 0x5C   (* backslash *)
  else if e =? 0x2F then Some 0x2F   (* solidus *)
  else if e =? 0x62 then Some 0x08   (* b: backspace *)
  else if e =? 0x66 then Some 0x0C   (* f: form feed *)
  else if e =? 0x6E then Some 0x0A   (* n: line feed *)
  else if e =? 0x72 then Some 0x0D   (* r: carriage return *)
  else if e =? 0x74 then Some 0x09   (* t: tab *)
  else None.

Definition cons_char (c : code_unit) (r : option (js_string * js_string))
  : option (js_string * js_string) :=
  match r with
  | Some (x, rest) => Some (c :: x, rest)
  | None => None
  end.

(** The characters of a JSON string, read after its opening quotation mark:
    the string's value and the text that follows the closing mark. *)
Fixpoint parse_string_chars (s : js_string) : option (js_string * js_string) :=
  match s with
  | [] => None
  | c :: t =>
      if c =? 0x22 then Some ([], t)
      else if c =? 0x5C then
        match t with
        | [] => None
        | e :: t1 =>
            if e =? 0x75 then
              match t1 with
              | h1 :: h2 :: h3 :: h4 :: t2 =>
                  match hex4 h1 h2 h3 h4 with
                  | Some u => cons_char u (parse_string_chars t2)
                  | None => None
                  end
              | _ => None
              end
            else
              match unescape e with
              | Some u => cons_char u (parse_string_chars t1)
              | None => None
              end
        end
      else if c <? 0x20 then None
      else cons_char c (parse_string_chars t)
  end.

Fixpoint span_digits (s : js_string) : js_string * js_string :=
  match s with
  | c :: t =>
      if is_digit c then let (d, r) := span_digits t in (c :: d, r)
      else ([], s)
  | [] => ([], [])
  end.

(** One or more digits. *)
Definition digits1 (s : js_string) : option (js_string * js_string) :=
  match span_digits s with
  | ([], _) => None
  | (d, r) => Some (d, r)
  end.

(** The integer part of a number: [0], or a non-zero digit and digits. *)
Definition parse_int (s : js_string) : option (js_string * js_string) :=
  match s with
  | c :: t =>
      if c =? 0x30 then Some ([c], t)
      else if is_digit c then let (d, r) := span_digits t in Some (c :: d, r)
      else None
  | [] => None
  end.

Definition parse_frac (s : js_string) : option (js_string * js_string) :=
  match s with
  | c :: t =>
      if c =? 0x2E then
        match digits1 t with
        | Some (d, r) => Some (c :: d, r)
        | None => None
        end
      else Some ([], s)
  | [] => Some ([], s)
  end.

Definition parse_exp (s : js_string) : option (js_string * js_string) :=
  match s with
  | c :: t =>
      if (c =? 0x65) || (c =? 0x45) then
        match t with
        | sg :: t' =>
            if (sg =? 0x2B) || (sg =? 0x2D) then
              match digits1 t' with
              | Some (d, r) => Some (c :: sg :: d, r)
              | None => None
              end
            else
              match digits1 t with
              | Some (d, r) => Some (c :: d, r)
              | None => None
              end
        | [] => None
        end
      else Some ([], s)
  | [] => Some ([], s)
  end.

(** A JSON number: the literal as written and the text after it. *)
Definition parse_number (s : js_string) : option (js_string * js_string) :=
  let (sign, s0) :=
    match s with
    | c :: t => if c =? 0x2D then ([c], t) else ([], s)
    | [] => ([], s)
    end in
  match parse_int s0 with
  | None => None
  | Some (i, s1) =>
      match parse_frac s1 with
      | None => None
      | Some (f, s2) =>
          match parse_exp s2 with
          | None => None
          | Some (e, s3) => Some (sign ++ i ++ f ++ e, s3)
          end
      end
  end.

(** [strip_prefix p s]: the rest of [s] after its prefix [p]. *)
Fixpoint strip_prefix (p s : js_string) : option js_string :=
  match p, s with
  | [], _ => Some s
  | x :: p', y :: s' => if x =? y then strip_prefix p' s' else None
  | _ :: _, [] => None
  end.

(* ================================================================== *)
(** ** Property keys that are array indices *)

Fixpoint decimal_value (acc : N) (s : js_string) : N :=
  match s with
  | c :: t => decimal_value (acc * 10 + (c - 0x30)) t
  | [] => acc
  end.

(** [array_index k] is [Some i] when [k] is the canonical decimal writing of
    an integer [i] between 0 and 2^32 - 2. *)
Definition array_index (k : js_string) : option N :=
  match k with
  | [] => None
  | c :: t =>
      if forallb is_digit k
         && (negb (c =? 0x30) || match t with [] => true | _ => false end)
         && (List.length k <=? 10)%nat
      then
        let i := decimal_value 0 k in
        if i <=? 4294967294 then Some i else None
      else None
  end.

(* ================================================================== *)
(** ** Values, errors and the HTTP data of [fetch] *)

(** What can go wrong below the HTTP layer, or in [fetch] before it hands a
    response over (the CORS checks, the following of redirects). *)
Inductive transport_failure : Type :=
| ConnectionRefused
| DnsFailure
| TimedOut
| CorsFailure
| BadRedirect
| TooManyRedirects.

(** The exceptions the operation can meet: [fetch] rejects with a transport
    error, [Response.json] with a [SyntaxError], [JSON.stringify] throws a
    [TypeError], or a [RangeError] for a text longer than the engine's
    longest string. *)
Inductive exn : Type :=
| TransportError (cause : transport_failure)
| SyntaxError
| TypeError
| RangeError.

(** How an evaluation ends: with a value, or with a thrown exception (for an
    async function: the promise is fulfilled, or rejected). *)
Inductive outcome (A : Type) : Type :=
| Returned (a : A)
| Thrown (e : exn).
Arguments Returned {A} a.
Arguments Thrown {A} e.

(** For the examples: numbers kept as the literal that denotes them. *)
Definition literal : Type := js_string.
Definition literal_of_string (lit : js_string) : literal := lit.
Definition literal_to_string (n : literal) : js_string := n.
Definition literal_is_finite (n : literal) : bool := true.

Section AgentClient.

(** IEEE-754 numbers are a parameter: their type, the value of a numeric
    literal ([StringToNumber]), [Number::toString] and the finiteness test
    of [JSON.stringify]. *)
Variable number : Type.
Variable StringToNumber : js_string -> number.
Variable Number_toString : number -> js_string.
Variable Number_isFinite : number -> bool.

(** ECMAScript values as far as [JSON.stringify] and [JSON.parse] tell them
    apart.  The properties of an object are listed in the order of
    [[OwnPropertyKeys]]: array indices in ascending order, then the other
    keys in the order of their creation. *)
Inductive jsval : Type :=
| VUndefined
| VNull
| VBool (b : bool)
| VNumber (n : number)
| VBigInt (z : Z)
| VString (s : js_string)
| VArray (elems : list jsval)
| VObject (props : list (js_string * jsval)).

Definition properties : Type := list (js_string * jsval).

(** Defining a property whose key is the array index [i]: in place when the
    object has it, else before the first larger index or other key. *)
Fixpoint define_index (i : N) (k : js_string) (v : jsval) (ps : properties)
  : properties :=
  match ps with
  | [] => [(k, v)]
  | (k', v') :: ps' =>
      match array_index k' with
      | Some j =>
          if i =? j then (k', v) :: ps'
          else if i <? j then (k, v) :: ps
          else (k', v') :: define_index i k v ps'
      | None => (k, v) :: ps
      end
  end.

(** Defining a property of any other key: in place when the object has it,
    else after all the others. *)
Fixpoint define_named (k : js_string) (v : jsval) (ps : properties)
  : properties :=
  match ps with
  | [] => [(k, v)]
  | (k', v') :: ps' =>
      if js_string_eqb k k' then (k', v) :: ps'
      else (k', v') :: define_named k v ps'
  end.

Definition CreateDataProperty (ps : properties) (k : js_string) (v : jsval)
  : properties :=
  match array_index k with
  | Some i => define_index i k v ps
  | None => define_named k v ps
  end.

(* ------------------------------------------------------------------ *)
(** *** [JSON.parse] *)

Definition keyword (kw : string) (v : jsval) (s : js_string)
  : option (jsval * js_string) :=
  match strip_prefix (str kw) s with
  | Some r => Some (v, r)
  | None => None
  end.

(** The three parsers take the text at the start of a value (of the elements
    of an array after its bracket, of the members of an object after its
    brace) and give what they read and the text after it.  [fuel] bounds the
    number of nested calls; [JSON_parse] gives enough of it. *)
Fixpoint parse_value (fuel : nat) (s : js_string)
  : option (jsval * js_string) :=
  match fuel with
  | O => None
  | S fuel' =>
      match skip_ws s with
      | [] => None
      | c :: t =>
          if c =? 0x7B then
            match skip_ws t with
            | [] => None
            | c' :: t' =>
                if c' =? 0x7D then Some (VObject [], t')
                else
                  match parse_members fuel' [] t with
                  | Some (ps, r) => Some (VObject ps, r)
                  | None => None
                  end
            end
          else if c =? 0x5B then
            match skip_ws t with
            | [] => None
            | c' :: t' =>
                if c' =? 0x5D then Some (VArray [], t')
                else
                  match parse_elements fuel' t with
                  | Some (vs, r) => Some (VArray vs, r)
                  | None => None
                  end
            end
          else if c =? 0x22 then
            match parse_string_chars t with
            | Some (x, r) => Some (VString x, r)
            | None => None
            end
          else if c =? 0x74 then keyword "true" (VBool true) (c :: t)
          else if c =? 0x66 then keyword "false" (VBool false) (c :: t)
          else if c =? 0x6E then keyword "null" VNull (c :: t)
          else
            match parse_number (c :: t) with
            | Some (lit, r) => Some (VNumber (StringToNumber lit), r)
            | None => None
            end
      end
  end

with parse_elements (fuel : nat) (s : js_string)
  : option (list jsval * js_string) :=
  match fuel with
  | O => None
  | S fuel' =>
      match parse_value fuel' s with
      | None => None
      | Some (v, r) =>
          match skip_ws r with
          | [] => None
          | c :: t =>
              if c =? 0x2C then
                match parse_elements fuel' t with
                | Some (vs, r') => Some (v :: vs, r')
                | None => None
                end
              else if c =? 0x5D then Some ([v], t)
              else None
          end
      end
  end

with parse_members (fuel : nat) (acc : properties) (s : js_string)
  : option (properties * js_string) :=
  match fuel with
  | O => None
  | S fuel' =>
      match skip_ws s with
      | [] => None
      | q :: t =>
          if q =? 0x22 then
            match parse_string_chars t with
            | None => None
            | Some (k, r) =>
                match skip_ws r with
                | [] => None
                | c :: t1 =>
                    if c =? 0x3A then
                      match parse_value fuel' t1 with
                      | None => None
                      | Some (v, r2) =>
                          let acc' := CreateDataProperty acc k v in
                          match skip_ws r2 with
                          | [] => None
                          | c2 :: t2 =>
                              if c2 =? 0x2C then parse_members fuel' acc' t2
                              else if c2 =? 0x7D then Some (acc', t2)
                              else None
                          end
                      end
                    else None
                end
            end
          else None
      end
  end.

(** [JSON.parse]: one value between optional white space; [None] stands for
    the [SyntaxError] it throws. *)
Definition JSON_parse (text : js_string) : option jsval :=
  match parse_value (2 * List.length text + 2) text with
  | Some (v, r) =>
      match skip_ws r with
      | [] => Some v
      | _ :: _ => None
      end
  | None => None
  end.

(* ------------------------------------------------------------------ *)
(** *** [JSON.stringify] *)

Fixpoint join_comma (parts : list js_string) : js_string :=
  match parts with
  | [] => []
  | [x] => x
  | x :: rest => x ++ 0x2C :: join_comma rest
  end.

(** [SerializeJSONProperty] without replacer and indentation: [None] is the
    [undefined] it gives for a value that has no JSON form. *)
Fixpoint SerializeJSONProperty (v : jsval) : outcome (option js_string) :=
  match v with
  | VUndefined => Returned None
  | VNull => Returned (Some (str "null"))
  | VBool true => Returned (Some (str "true"))
  | VBool false => Returned (Some (str "false"))
  | VNumber n =>
      Returned (Some (if Number_isFinite n then Number_toString n
                      else str "null"))
  | VBigInt _ => Thrown TypeError
  | VString s => Returned (Some (QuoteJSONString s))
  | VArray elems =>
      match
        (fix items (l : list jsval) : outcome (list js_string) :=
           match l with
           | [] => Returned []
           | x :: l' =>
               match SerializeJSONProperty x with
               | Thrown e => Thrown e
               | Returned o =>
                   match items l' with
                   | Thrown e => Thrown e
                   | Returned r =>
                       Returned (match o with
                                 | Some t => t
                                 | None => str "null"
                                 end :: r)
                   end
               end
           end) elems
      with
      | Thrown e => Thrown e
      | Returned parts => Returned (Some (0x5B :: join_comma parts ++ [0x5D]))
      end
  | VObject props =>
      match
        (fix members (l : list (js_string * jsval))
           : outcome (list js_string) :=
           match l with
           | [] => Returned []
           | (k, x) :: l' =>
               match SerializeJSONProperty x with
               | Thrown e => Thrown e
               | Returned o =>
                   match members l' with
                   | Thrown e => Thrown e
                   | Returned r =>
                       Returned (match o with
                                 | Some t =>
                                     (QuoteJSONString k ++ 0x3A :: t) :: r
                                 | None => r
                                 end)
                   end
               end
           end) props
      with
      | Thrown e => Thrown e
      | Returned parts => Returned (Some (0x7B :: join_comma parts ++ [0x7D]))
      end
  end.

Definition JSON_stringify (v : jsval) : outcome (option js_string) :=
  SerializeJSONProperty v.

(* ------------------------------------------------------------------ *)
(** *** Requests, responses and async programs *)

Definition header_list : Type := list (js_string * js_string).

(** The options object given to [fetch]. *)
Record RequestInit : Type := {
  init_method : js_string;
  init_headers : header_list;
  init_body : option js_string
}.

(** The request [fetch] issues; [req_body] is the text that is sent (as its
    UTF-8 encoding). *)
Record Request : Type := {
  req_url : js_string;
  req_method : js_string;
  req_headers : header_list;
  req_body : option js_string
}.

(** The response [fetch] resolves with; [res_body] is the text of the body
    (the bytes received, decoded as UTF-8). *)
Record Response : Type := {
  res_status : N;
  res_headers : header_list;
  res_body : js_string
}.

Definition new_Request (url : js_string) (init : RequestInit) : Request :=
  {| req_url := url;
     req_method := init_method init;
     req_headers := init_headers init;
     req_body := option_map ToUSVString (init_body init) |}.

(** The body of an async function: it returns, throws, or awaits one of the
    two promises the client uses and goes on with what the promise resolves
    to.  A rejected promise is rethrown by [await]: no operation of the
    client catches it. *)
Inductive async (A : Type) : Type :=
| Resolve (a : A)
| Reject (e : exn)
| AwaitFetch (url : js_string) (init : RequestInit) (k : Response -> async A)
| AwaitJson (res : Response) (k : jsval -> async A).
Arguments Resolve {A} a.
Arguments Reject {A} e.
Arguments AwaitFetch {A} url init k.
Arguments AwaitJson {A} res k.

Fixpoint bind {A B : Type} (c : async A) (f : A -> async B) : async B :=
  match c with
  | Resolve a => f a
  | Reject e => Reject e
  | AwaitFetch url init k => AwaitFetch url init (fun r => bind (k r) f)
  | AwaitJson res k => AwaitJson res (fun v => bind (k v) f)
  end.

Notation "x <- c ;; k" := (bind c (fun x => k))
  (at level 61, c at next level, right associativity).

(** A synchronous evaluation inside an async function. *)
Definition eval {A : Type} (o : outcome A) : async A :=
  match o with
  | Returned a => Resolve a
  | Thrown e => Reject e
  end.

(** [await fetch(url, init)] and [await res.json()]. *)
Definition fetch (url : js_string) (init : RequestInit) : async Response :=
  AwaitFetch url init Resolve.

Definition Response_json (res : Response) : async jsval :=
  AwaitJson res Resolve.

(* ------------------------------------------------------------------ *)
(** *** The client *)

Definition askAgent (prompt : js_string) : async jsval :=
  body <- eval (JSON_stringify (VObject [(str "prompt", VString prompt)])) ;;
  res <- fetch (str "http://localhost:8001/agent")
           {| init_method := str "POST";
              init_headers := [(str "Content-Type", str "application/json")];
              init_body := body |} ;;
  Response_json res.

(* ------------------------------------------------------------------ *)
(** *** One call, run to its end *)

(** What the network does with a request: no response, or a response. *)
Definition answer : Type := (transport_failure + Response)%type.

(** The world of one call: the requests issued so far, and the network,
    whose answer to a request may depend on all the requests before it. *)
Record world : Type := {
  issued : list Request;
  network : list Request -> Request -> answer
}.

Definition issue (w : world) (r : Request) : world :=
  {| issued := issued w ++ [r]; network := network w |}.

Fixpoint run {A : Type} (c : async A) (w : world) : outcome A * world :=
  match c with
  | Resolve a => (Returned a, w)
  | Reject e => (Thrown e, w)
  | AwaitFetch url init k =>
      let r := new_Request url init in
      match network w (issued w) r with
      | inl f => (Thrown (TransportError f), issue w r)
      | inr res => run (k res) (issue w r)
      end
  | AwaitJson res k =>
      match JSON_parse (res_body res) with
      | Some v => run (k v) w
      | None => (Thrown SyntaxError, w)
      end
  end.


(** The request a program issues at its first await, when that is a
    [fetch]. *)
Definition first_request {A : Type} (c : async A) : option Request :=
  match c with
  | AwaitFetch url init _ => Some (new_Request url init)
  | _ => None
  end.

(** The world of a call on its own whose request the network answers
    with [a]. *)
Definition alone (a : answer) : world :=
  {| issued := []; network := fun _ _ => a |}.

(* ------------------------------------------------------------------ *)
(** *** Several calls in flight *)

(** An async function runs on the event loop from one await to the next.
    A call is ready to run, or suspended on the [fetch] it issued on a
    connection, or settled.  ([Response.json] needs nothing more from the
    network here: the call that awaits it is ready to decode.) *)
Inductive call : Type :=
| Running (c : async jsval)
| AwaitingFetch (conn : nat) (k : Response -> async jsval)
| Settled (o : outcome jsval).

(** The calls, the connections opened so far (connection number [c] is the
    entry of index [c]: the call that opened it and the request it carries)
    and the answers the network has delivered, by connection. *)
Record system : Type := {
  calls : list call;
  connections : list (nat * Request);
  delivered : list (nat * answer)
}.

(** The event loop runs a call up to its next await, or the network
    completes a connection with an answer of its choice. *)
Inductive event : Type :=
| Advance (i : nat)
| Deliver (conn : nat) (a : answer).

Fixpoint set_nth {A : Type} (i : nat) (x : A) (l : list A) : list A :=
  match l, i with
  | [], _ => []
  | _ :: t, O => x :: t
  | y :: t, S j => y :: set_nth j x t
  end.

Definition set_call (s : system) (i : nat) (c : call) : system :=
  {| calls := set_nth i c (calls s);
     connections := connections s;
     delivered := delivered s |}.

Definition advance (i : nat) (s : system) : system :=
  match nth_error (calls s) i with
  | Some (Running (Resolve v)) => set_call s i (Settled (Returned v))
  | Some (Running (Reject e)) => set_call s i (Settled (Thrown e))
  | Some (Running (AwaitFetch url init k)) =>
      {| calls :=
           set_nth i (AwaitingFetch (List.length (connections s)) k) (calls s);
         connections := connections s ++ [(i, new_Request url init)];
         delivered := delivered s |}
  | Some (Running (AwaitJson res k)) =>
      match JSON_parse (res_body res) with
      | Some v => set_call s i (Running (k v))
      | None => set_call s i (Settled (Thrown SyntaxError))
      end
  | _ => s
  end.

Definition waiting (conn : nat) (c : call) : bool :=
  match c with
  | AwaitingFetch conn' _ => Nat.eqb conn conn'
  | _ => false
  end.

(** The promise of the [fetch] on connection [conn] settles with [a]. *)
Definition resume (conn : nat) (a : answer) (c : call) : call :=
  match c with
  | AwaitingFetch conn' k =>
      if Nat.eqb conn conn' then
        match a with
        | inl f => Settled (Thrown (TransportError f))
        | inr res => Running (k res)
        end
      else c
  | _ => c
  end.

(** An answer is delivered on a connection some call is waiting on. *)
Definition deliver (conn : nat) (a : answer) (s : system) : system :=
  if existsb (waiting conn) (calls s) then
    {| calls := map (resume conn a) (calls s);
       connections := connections s;
       delivered := delivered s ++ [(conn, a)] |}
  else s.

Definition step (e : event) (s : system) : system :=
  match e with
  | Advance i => advance i s
  | Deliver conn a => deliver conn a s
  end.

Definition exec (evs : list event) (s : system) : system :=
  fold_left (fun s e => step e s) evs s.

(** One call of [askAgent] for each of the prompts, none started. *)
Definition start (prompts : list js_string) : system :=
  {| calls := map (fun p => Running (askAgent p)) prompts;
     connections := [];
     delivered := [] |}.

(** Where the call of index [i], a call of [askAgent p], can be, given the
    connections opened and the answers delivered. *)
Definition call_ok (conns : list (nat * Request)) (dlv : list (nat * answer))
  (i : nat) (p : js_string) (c : call) : Prop :=
  match c with
  | Running c' =>
      (c' = askAgent p /\ forall conn r, nth_error conns conn <> Some (i, r))
      \/ exists conn r res,
           nth_error conns conn = Some (i, r)
           /\ In (conn, inr res) dlv
           /\ (c' = AwaitJson res Resolve
               \/ exists v, JSON_parse (res_body res) = Some v
                            /\ c' = Resolve v)
  | AwaitingFetch conn k =>
      (exists r, nth_error conns conn = Some (i, r))
      /\ k = (fun res => AwaitJson res Resolve)
      /\ forall a, ~ In (conn, a) dlv
  | Settled o =>
      exists conn r a,
        nth_error conns conn = Some (i, r)
        /\ In (conn, a) dlv
        /\ o = fst (run (askAgent p) (alone a))
  end.

(** The invariant of a system started on [prompts]. *)
Record system_ok (prompts : list js_string) (s : system) : Prop := {
  ok_calls :
    forall i, match nth_error (calls s) i, nth_error prompts i with
              | Some c, Some p => call_ok (connections s) (delivered s) i p c
              | None, None => True
              | _, _ => False
              end;
  ok_request :
    forall conn i r,
      nth_error (connections s) conn = Some (i, r) ->
      exists p, nth_error prompts i = Some p
                /\ first_request (askAgent p) = Some r;
  ok_own :
    forall conn conn' i r r',
      nth_error (connections s) conn = Some (i, r) ->
      nth_error (connections s) conn' = Some (i, r') -> conn = conn';
  ok_delivered :
    forall conn a, In (conn, a) (delivered s) ->
                   (conn < List.length (connections s))%nat;
  ok_answer :
    forall conn a a',
      In (conn, a) (delivered s) -> In (conn, a') (delivered s) -> a = a'
}.

(** Two calls of [askAgent], on [p1] and on [p2], after the events [evs]:
    any interleaving of their steps and of the network's answers. *)
Definition overlap (p1 p2 : js_string) (evs : list event) : system :=
  exec evs (start [p1; p2]).

(* ------------------------------------------------------------------ *)
(** *** Inputs of the examples *)

Definition hello_prompt : js_string := str "hello".

(** A quotation mark, a backslash, a line feed, U+0001, a surrogate pair,
    a trailing surrogate on its own and a letter. *)
Definition escaped_prompt : js_string :=
  [0x22; 0x5C; 0x0A; 0x01; 0xD83D; 0xDE00; 0xDC00; 0x41].

Definition hello_request : Request :=
  {| req_url := str "http://localhost:8001/agent";
     req_method := str "POST";
     req_headers := [(str "Content-Type", str "application/json")];
     req_body := Some (json_text "{'prompt':'hello'}") |}.

Definition ok_response : Response :=
  {| res_status := 200;
     res_headers := [(str "Content-Type", str "application/json")];
     res_body := json_text "{'ok': true}" |}.


Definition error_response : Response :=
  {| res_status := 500;
     res_headers := [(str "Content-Type", str "application/json")];
     res_body := json_text "{'error': 'x'}" |}.


(** Both calls start, the second is answered before the first, and both
    run to their end. *)
Definition crossed_schedule : list event :=
  [ Advance 0; Advance 1;
    Deliver 1 (inr error_response); Deliver 0 (inr ok_response);
    Advance 1; Advance 0; Advance 0; Advance 1 ].

(* ------------------------------------------------------------------ *)
(** *** Notions for the further properties *)


(** The world of a call on its own, in front of a server that answers each
    request by itself. *)
Definition server_world (server : Request -> answer) : world :=
  {| issued := []; network := fun _ r => server r |}.

(** Every answer delivered so far is the server's answer to the request of
    the connection it was delivered on. *)
Definition answered_by (server : Request -> answer) (s : system) : Prop :=
  forall conn a i r,
    In (conn, a) (delivered s) ->
    nth_error (connections s) conn = Some (i, r) ->
    a = server r.

(** A server for the examples: it knows the prompt hello. *)
Definition hello_server (r : Request) : answer :=
  match req_body r with
  | Some b =>
      if js_string_eqb b (json_text "{'prompt':'hello'}")
      then inr ok_response
      else inr error_response
  | None => inl ConnectionRefused
  end.

Definition other_request : Request :=
  {| req_url := str "http://localhost:8001/agent";
     req_method := str "POST";
     req_headers := [(str "Content-Type", str "application/json")];
     req_body := Some (json_text "{'prompt':'other'}") |}.

(* ------------------------------------------------------------------ *)
(** *** The platform under [fetch] and [JSON.stringify] *)

(** So far a [world] gives what [fetch] resolves with, and strings have any
    length.  Below that, [fetch] sends HTTP requests, and more than one when
    it follows a redirect; the body of a response arrives after [fetch] has
    resolved; and the engine has a longest string. *)

(** The location URL of a response: none, one that [fetch] refuses (it does
    not parse, its scheme is not HTTP(S), CORS forbids it), or a URL. *)
Inductive location : Type :=
| NoLocation
| BadLocation
| Location (url : js_string).

(** What the platform decides.  [location_url] takes the URL of the request
    and the headers of the response; [preflight] gives the CORS-preflight
    request to send before a request, if one is needed, and
    [preflight_check] and [cors_check] are the CORS checks of the response
    to the preflight and of a response to the request (a platform without
    CORS asks for no preflight and lets every response through). *)
Record Platform : Type := {
  max_string_length : N;
  location_url : js_string -> header_list -> location;
  same_origin : js_string -> js_string -> bool;
  preflight : list Request -> Request -> option Request;
  preflight_check : Request -> Response -> bool;
  cors_check : Request -> Response -> bool
}.

Variable platform : Platform.

(** A text the engine can hold. *)
Definition fits (text : js_string) : bool :=
  N.of_nat (List.length text) <=? max_string_length platform.

(** [JSON.stringify] on the engine: a [RangeError] when the text is longer
    than the longest string. *)
Definition JSON_stringify_bounded (v : jsval) : outcome (option js_string) :=
  match JSON_stringify v with
  | Returned (Some text) =>
      if fits text then Returned (Some text) else Thrown RangeError
  | o => o
  end.

(** The client on that engine. *)
Definition askAgent_bounded (prompt : js_string) : async jsval :=
  body <- eval (JSON_stringify_bounded
                  (VObject [(str "prompt", VString prompt)])) ;;
  res <- fetch (str "http://localhost:8001/agent")
           {| init_method := str "POST";
              init_headers := [(str "Content-Type", str "application/json")];
              init_body := body |} ;;
  Response_json res.

(** The wire: the requests given to [fetch], the HTTP requests sent, the
    answer of the network to a request after those sent before it, and
    whether the transfer of the body of a response fails before its end. *)
Record wire : Type := {
  fetched : list Request;
  sent : list Request;
  http : list Request -> Request -> answer;
  body_transfer : Response -> option transport_failure
}.

Definition call_fetch (W : wire) (r : Request) : wire :=
  {| fetched := fetched W ++ [r];
     sent := sent W;
     http := http W;
     body_transfer := body_transfer W |}.

Definition send (W : wire) (r : Request) : wire :=
  {| fetched := fetched W;
     sent := sent W ++ [r];
     http := http W;
     body_transfer := body_transfer W |}.

(** Header names are compared without regard to the case of letters. *)
Definition to_lower (c : code_unit) : code_unit :=
  if (0x41 <=? c) && (c <=? 0x5A) then c + 0x20 else c.

Definition header_is (name : string) (h : js_string) : bool :=
  js_string_eqb (map to_lower h) (map to_lower (str name)).

Definition remove_headers (names : list string) (hs : header_list)
  : header_list :=
  filter (fun '(h, _) => negb (existsb (fun n => header_is n h) names)) hs.

Definition redirect_status (status : N) : bool :=
  (status =? 301) || (status =? 302) || (status =? 303)
  || (status =? 307) || (status =? 308).


(** The request that follows a redirect to [url]: after 301 or 302 a POST,
    and after 303 all but GET and HEAD, become a GET without body and
    without the headers that describe a body; to another origin the
    Authorization header is not sent. *)
Definition redirect_request (status : N) (url : js_string) (r : Request)
  : Request :=
  let to_get :=
    (((status =? 301) || (status =? 302))
     && js_string_eqb (req_method r) (str "POST"))
    || ((status =? 303)
        && negb (js_string_eqb (req_method r) (str "GET")
                 || js_string_eqb (req_method r) (str "HEAD"))) in
  let kept :=
    if to_get
    then remove_headers
           ["Content-Encoding"; "Content-Language"; "Content-Location";
            "Content-Type"]%string (req_headers r)
    else req_headers r in
  {| req_url := url;
     req_method := if to_get then str "GET" else req_method r;
     req_headers :=
       if same_origin platform (req_url r) url then kept
       else remove_headers ["Authorization"%string] kept;
     req_body := if to_get then None else req_body r |}.

(** The CORS preflight of a request, when the platform asks for one: the
    failure that ends the fetch, if any. *)
Definition preflight_step (r : Request) (W : wire)
  : option transport_failure * wire :=
  match preflight platform (sent W) r with
  | None => (None, W)
  | Some o =>
      match http W (sent W) o with
      | inl f => (Some f, send W o)
      | inr res =>
          if preflight_check platform r res then (None, send W o)
          else (Some CorsFailure, send W o)
      end
  end.

(** HTTP fetch with the redirect mode [follow], which is the default:
    [redirects] is the number of redirects that may still be followed. *)
Fixpoint http_fetch (redirects : nat) (r : Request) (W : wire)
  : answer * wire :=
  match preflight_step r W with
  | (Some f, W1) => (inl f, W1)
  | (None, W1) =>
      match http W1 (sent W1) r with
      | inl f => (inl f, send W1 r)
      | inr res =>
          if negb (cors_check platform r res)
          then (inl CorsFailure, send W1 r)
          else if redirect_status (res_status res) then
            match location_url platform (req_url r) (res_headers res) with
            | NoLocation => (inr res, send W1 r)
            | BadLocation => (inl BadRedirect, send W1 r)
            | Location url =>
                match redirects with
                | O => (inl TooManyRedirects, send W1 r)
                | S n =>
                    http_fetch n (redirect_request (res_status res) url r)
                      (send W1 r)
                end
            end
          else (inr res, send W1 r)
      end
  end.

(** One call, run to its end on the wire: [fetch] follows at most 20
    redirects, and [Response.json] needs the whole body. *)
Fixpoint run_http {A : Type} (c : async A) (W : wire) : outcome A * wire :=
  match c with
  | Resolve a => (Returned a, W)
  | Reject e => (Thrown e, W)
  | AwaitFetch url init k =>
      let r := new_Request url init in
      match http_fetch 20 r (call_fetch W r) with
      | (inl f, W') => (Thrown (TransportError f), W')
      | (inr res, W') => run_http (k res) W'
      end
  | AwaitJson res k =>
      match body_transfer W res with
      | Some f => (Thrown (TransportError f), W)
      | None =>
          match JSON_parse (res_body res) with
          | Some v => run_http (k v) W
          | None => (Thrown SyntaxError, W)
          end
      end
  end.


(** What one [fetch] and the reading of the body give, as an answer for a
    [world]. *)
Definition fetch_answer (W : wire) (r : Request) : answer :=
  match fst (http_fetch 20 r (call_fetch W r)) with
  | inl f => inl f
  | inr res =>
      match body_transfer W res with
      | Some f => inl f
      | None => inr res
      end
  end.

(* ------------------------------------------------------------------ *)
(** *** A platform and wires for the examples *)

(** The location of a response whose Location header holds an absolute URL
    that needs no normalisation. *)
Definition plain_location (base : js_string) (hs : header_list) : location :=
  match filter (fun '(h, _) => header_is "Location" h) hs with
  | [] => NoLocation
  | [(_, v)] => Location v
  | _ => BadLocation
  end.

(** A platform without CORS whose longest string is that of V8 (2^29 - 24
    code units), as Node has it. *)
Definition plain_platform : Platform :=
  {| max_string_length := 536870888;
     location_url := plain_location;
     same_origin := fun _ _ => true;
     preflight := fun _ _ => None;
     preflight_check := fun _ _ => true;
     cors_check := fun _ _ => true |}.

Definition wire_of (h : list Request -> Request -> answer) : wire :=
  {| fetched := []; sent := []; http := h; body_transfer := fun _ => None |}.

(** A response of status 307 that sends the client to another address. *)
Definition moved_response : Response :=
  {| res_status := 307;
     res_headers := [(str "Location", str "http://localhost:8001/agent2")];
     res_body := json_text "{'error': 'x'}" |}.


(** A server that has moved: the old address answers with the redirect, any
    other with [ok_response]. *)
Definition moved_server (before : list Request) (r : Request) : answer :=
  if js_string_eqb (req_url r) (str "http://localhost:8001/agent")
  then inr moved_response
  else inr ok_response.

(** A string of the greatest length V8 allows. *)
Definition longest_prompt : js_string := N.iter 536870888 (cons 0x61) [].

(* ================================================================== *)
(** ** Escapes are read back *)

Lemma andb_range (lo hi c : N) :
  ((lo <=? c) && (c <=? hi)) = true <-> lo <= c /\ c <= hi.
Proof.
  rewrite andb_true_iff, !N.leb_le. reflexivity.
Qed.

Lemma hex_value_hex_digit (d : N) : d < 16 -> hex_value (hex_digit d) = Some d.
Proof.
  intros H. unfold hex_digit, hex_value.
  destruct (N.ltb_spec d 10) as [Hd | Hd].
  - assert (E : ((0x30 <=? 0x30 + d) && (0x30 + d <=? 0x39)) = true)
      by (apply andb_range; lia).
    rewrite E. f_equal. lia.
  - assert (E1 : ((0x30 <=? 0x61 + (d - 10)) && (0x61 + (d - 10) <=? 0x39)) = false)
      by (apply andb_false_intro2, N.leb_gt; lia).
    assert (E2 : ((0x41 <=? 0x61 + (d - 10)) && (0x61 + (d - 10) <=? 0x46)) = false)
      by (apply andb_false_intro2, N.leb_gt; lia).
    assert (E3 : ((0x61 <=? 0x61 + (d - 10)) && (0x61 + (d - 10) <=? 0x66)) = true)
      by (apply andb_range; lia).
    rewrite E1, E2, E3. f_equal. lia.
Qed.

(** Four hexadecimal digits of a 16-bit value give the value back. *)
Lemma hex_digits_value (c : N) :
  c < 0x10000 ->
  (((c / 0x1000) mod 16 * 16 + (c / 0x100) mod 16) * 16 + (c / 0x10) mod 16) * 16
  + c mod 16 = c.
Proof.
  intros H.
  replace (c / 0x1000) with (c / 16 / 16 / 16)
    by (rewrite !N.Div0.div_div; reflexivity).
  replace (c / 0x100) with (c / 16 / 16)
    by (rewrite !N.Div0.div_div; reflexivity).
  pose proof (N.div_mod c 16) as H0.
  pose proof (N.div_mod (c / 16) 16) as H1.
  pose proof (N.div_mod (c / 16 / 16) 16) as H2.
  pose proof (N.div_mod (c / 16 / 16 / 16) 16) as H3.
  assert (Z : c / 16 / 16 / 16 / 16 = 0)
    by (rewrite !N.Div0.div_div; apply N.div_small; exact H).
  rewrite Z in H3.
  generalize dependent (c mod 16).
  generalize dependent ((c / 16) mod 16).
  generalize dependent ((c / 16 / 16) mod 16).
  generalize dependent ((c / 16 / 16 / 16) mod 16).
  generalize dependent (c / 16 / 16 / 16).
  generalize dependent (c / 16 / 16).
  generalize dependent (c / 16).
  intros; lia.
Qed.

Lemma parse_UnicodeEscape (c : N) (s : js_string) :
  c < 0x10000 ->
  parse_string_chars (UnicodeEscape c ++ s) = cons_char c (parse_string_chars s).
Proof.
  intros H. unfold UnicodeEscape. cbn [app parse_string_chars].
  change (0x5C =? 0x22) with false. change (0x5C =? 0x5C) with true.
  change (0x75 =? 0x75) with true. cbn iota.
  unfold hex4.
  rewrite !hex_value_hex_digit by (apply N.mod_lt; discriminate).
  rewrite hex_digits_value by exact H. reflexivity.
Qed.

(** A character that needs no escape is read as itself. *)
Lemma parse_plain_char (c : N) (s : js_string) :
  c <> 0x22 -> c <> 0x5C -> 0x20 <= c ->
  parse_string_chars (c :: s) = cons_char c (parse_string_chars s).
Proof.
  intros Hq Hb Hc. cbn [parse_string_chars].
  apply N.eqb_neq in Hq, Hb. rewrite Hq, Hb.
  assert (E : (c <? 0x20) = false) by (apply N.ltb_ge; exact Hc).
  rewrite E. reflexivity.
Qed.

Lemma single_char_escape_unescape (c e : N) :
  single_char_escape c = Some e -> e <> 0x75 /\ unescape e = Some c.
Proof.
  unfold single_char_escape.
  repeat match goal with
         | |- context [c =? ?k] =>
             destruct (N.eqb_spec c k) as [-> | ?];
             [cbn; intros [= <-]; split; [discriminate | reflexivity] |]
         end.
  discriminate.
Qed.

Lemma single_char_escape_none (c : N) :
  single_char_escape c = None -> c <> 0x22 /\ c <> 0x5C.
Proof.
  unfold single_char_escape.
  repeat match goal with
         | |- context [c =? ?k] =>
             destruct (N.eqb_spec c k) as [-> | ?]; [discriminate |]
         end.
  intros _. split; assumption.
Qed.

(** What [QuoteJSONString] writes for a code unit is read back as it. *)
Lemma parse_quote_code_unit (c : N) (s : js_string) :
  c < 0x10000 ->
  parse_string_chars (quote_code_point c ++ s)
  = cons_char c (parse_string_chars s).
Proof.
  intros H. unfold quote_code_point.
  destruct (single_char_escape c) as [e |] eqn:E.
  - apply single_char_escape_unescape in E as [Hu E].
    cbn [app parse_string_chars].
    change (0x5C =? 0x22) with false. change (0x5C =? 0x5C) with true.
    cbn iota. apply N.eqb_neq in Hu. rewrite Hu, E. reflexivity.
  - apply single_char_escape_none in E as [Hq Hb].
    destruct ((c <? 0x20) || is_leading_surrogate c || is_trailing_surrogate c)
      eqn:Esc.
    + apply parse_UnicodeEscape, H.
    + apply orb_false_elim in Esc as [Esc _].
      apply orb_false_elim in Esc as [Esc _].
      apply N.ltb_ge in Esc.
      unfold UTF16EncodeCodePoint.
      assert (L : (c <=? 0xFFFF) = true) by (apply N.leb_le; lia).
      rewrite L. apply parse_plain_char; assumption.
Qed.

Lemma UTF16Encode_pair (c d : N) :
  is_leading_surrogate c = true -> is_trailing_surrogate d = true ->
  UTF16EncodeCodePoint (UTF16SurrogatePairToCodePoint c d) = [c; d].
Proof.
  unfold is_leading_surrogate, is_trailing_surrogate.
  rewrite !andb_range. intros [Hc1 Hc2] [Hd1 Hd2].
  unfold UTF16EncodeCodePoint, UTF16SurrogatePairToCodePoint.
  assert (L : ((c - 0xD800) * 0x400 + (d - 0xDC00) + 0x10000 <=? 0xFFFF) = false)
    by (apply N.leb_gt; lia).
  rewrite L.
  replace ((c - 0xD800) * 0x400 + (d - 0xDC00) + 0x10000 - 0x10000)
    with ((d - 0xDC00) + (c - 0xD800) * 0x400) by lia.
  rewrite N.div_add, N.Div0.mod_add by discriminate.
  rewrite N.div_small, N.mod_small by lia.
  f_equal; [lia | f_equal; lia].
Qed.

(** A surrogate pair is written as it is. *)
Lemma quote_pair (c d : N) :
  is_leading_surrogate c = true -> is_trailing_surrogate d = true ->
  quote_code_point (UTF16SurrogatePairToCodePoint c d) = [c; d].
Proof.
  intros Hc Hd.
  unfold quote_code_point. rewrite <- (UTF16Encode_pair c d Hc Hd).
  unfold is_leading_surrogate, is_trailing_surrogate in Hc, Hd.
  apply andb_range in Hc, Hd.
  assert (G : 0x10000 <= UTF16SurrogatePairToCodePoint c d)
    by (unfold UTF16SurrogatePairToCodePoint; lia).
  set (cp := UTF16SurrogatePairToCodePoint c d) in *.
  assert (E1 : single_char_escape cp = None).
  { unfold single_char_escape.
    repeat match goal with
           | |- context [cp =? ?k] =>
               destruct (N.eqb_spec cp k) as [K | _]; [lia |]
           end.
    reflexivity. }
  assert (E2 : ((cp <? 0x20) || is_leading_surrogate cp
                || is_trailing_surrogate cp) = false).
  { unfold is_leading_surrogate, is_trailing_surrogate.
    rewrite !orb_false_iff. repeat split.
    - apply N.ltb_ge; lia.
    - apply andb_false_intro2, N.leb_gt; lia.
    - apply andb_false_intro2, N.leb_gt; lia. }
  rewrite E1, E2. reflexivity.
Qed.

(** A surrogate pair is read back as it is. *)
Lemma parse_quote_pair (c d : N) (s : js_string) :
  is_leading_surrogate c = true -> is_trailing_surrogate d = true ->
  parse_string_chars
    (quote_code_point (UTF16SurrogatePairToCodePoint c d) ++ s)
  = cons_char c (cons_char d (parse_string_chars s)).
Proof.
  intros Hc Hd. rewrite (quote_pair c d Hc Hd).
  unfold is_leading_surrogate, is_trailing_surrogate in Hc, Hd.
  apply andb_range in Hc, Hd.
  change ([c; d] ++ s) with (c :: d :: s).
  rewrite parse_plain_char by lia.
  rewrite parse_plain_char by lia. reflexivity.
Qed.

(** The characters [QuoteJSONString] writes for a string, followed by the
    closing quotation mark, are read back as the string. *)
Lemma parse_quoted_chars (p : js_string) :
  is_js_string p = true ->
  forall rest,
    parse_string_chars
      (flat_map quote_code_point (StringToCodePoints p) ++ 0x22 :: rest)
    = Some (p, rest).
Proof.
  intros Hp rest.
  assert (G : forall n q, (List.length q <= n)%nat -> is_js_string q = true ->
              parse_string_chars
                (flat_map quote_code_point (StringToCodePoints q)
                   ++ 0x22 :: rest) = Some (q, rest)).
  { clear p Hp. induction n as [| n IH]; intros q Hn Hq.
    - destruct q; [reflexivity | simpl in Hn; lia].
    - destruct q as [| c t]; [reflexivity |].
      cbn [is_js_string forallb] in Hq. apply andb_true_iff in Hq as [Hc Ht].
      apply N.ltb_lt in Hc. simpl in Hn.
      assert (Single :
        parse_string_chars
          (flat_map quote_code_point (c :: StringToCodePoints t)
             ++ 0x22 :: rest) = Some (c :: t, rest)).
      { cbn [flat_map]. rewrite <- app_assoc.
        rewrite parse_quote_code_unit by exact Hc.
        rewrite IH by (assumption || lia). reflexivity. }
      cbn [StringToCodePoints].
      destruct (is_leading_surrogate c) eqn:Lc; [| exact Single].
      destruct t as [| d t']; [exact Single |].
      destruct (is_trailing_surrogate d) eqn:Td; [| exact Single].
      cbn [is_js_string forallb] in Ht. apply andb_true_iff in Ht as [_ Ht'].
      cbn [flat_map]. rewrite <- app_assoc.
      rewrite parse_quote_pair by assumption.
      rewrite IH by (assumption || (simpl in Hn; lia)). reflexivity. }
  exact (G (List.length p) p (le_n _) Hp).
Qed.

(* ================================================================== *)
(** ** What [QuoteJSONString] writes has no lone surrogate *)

Lemma ToUSVString_plain (x s : js_string) :
  forallb no_surrogate x = true ->
  ToUSVString (x ++ s) = x ++ ToUSVString s.
Proof.
  induction x as [| c x IH]; intros H; [reflexivity |].
  cbn [forallb] in H. apply andb_true_iff in H as [Hc Hx].
  unfold no_surrogate in Hc. apply andb_true_iff in Hc as [Hl Ht].
  apply negb_true_iff in Hl, Ht.
  cbn [app ToUSVString]. rewrite Hl, Ht, IH by exact Hx. reflexivity.
Qed.

Lemma ToUSVString_cons (c : code_unit) (s : js_string) :
  no_surrogate c = true -> ToUSVString (c :: s) = c :: ToUSVString s.
Proof.
  intros H. apply (ToUSVString_plain [c] s). cbn [forallb].
  rewrite H. reflexivity.
Qed.

Lemma ToUSVString_pair (c d : code_unit) (s : js_string) :
  is_leading_surrogate c = true -> is_trailing_surrogate d = true ->
  ToUSVString (c :: d :: s) = c :: d :: ToUSVString s.
Proof.
  intros Hc Hd. cbn [ToUSVString]. rewrite Hc, Hd. reflexivity.
Qed.

Lemma hex_digit_plain (d : N) : d < 16 -> no_surrogate (hex_digit d) = true.
Proof.
  intros H. unfold no_surrogate, hex_digit, is_leading_surrogate,
    is_trailing_surrogate.
  apply andb_true_iff; split; apply negb_true_iff, andb_false_intro1,
    N.leb_gt; destruct (d <? 10); lia.
Qed.

(** What is written for a code unit that is not half of a pair. *)
Lemma quote_code_unit_plain (c : N) :
  c < 0x10000 -> forallb no_surrogate (quote_code_point c) = true.
Proof.
  intros H. unfold quote_code_point.
  destruct (single_char_escape c) as [e |] eqn:E.
  - unfold single_char_escape in E.
    repeat match type of E with
           | context [c =? ?k] => destruct (c =? k)
           end; try discriminate E; injection E as <-; reflexivity.
  - destruct ((c <? 0x20) || is_leading_surrogate c || is_trailing_surrogate c)
      eqn:Esc.
    + unfold UnicodeEscape. cbn [forallb].
      rewrite !hex_digit_plain by (apply N.mod_lt; discriminate).
      reflexivity.
    + apply orb_false_elim in Esc as [Esc Ht].
      apply orb_false_elim in Esc as [_ Hl].
      unfold UTF16EncodeCodePoint.
      assert (L : (c <=? 0xFFFF) = true) by (apply N.leb_le; lia).
      rewrite L. cbn [forallb]. unfold no_surrogate. rewrite Hl, Ht.
      reflexivity.
Qed.

(** The conversion to a [USVString] leaves the quoted characters of a
    string as they are. *)
Lemma ToUSVString_quoted_chars (p : js_string) :
  is_js_string p = true ->
  forall rest,
    ToUSVString (flat_map quote_code_point (StringToCodePoints p) ++ rest)
    = flat_map quote_code_point (StringToCodePoints p) ++ ToUSVString rest.
Proof.
  intros Hp rest.
  assert (G : forall n q, (List.length q <= n)%nat -> is_js_string q = true ->
              ToUSVString
                (flat_map quote_code_point (StringToCodePoints q) ++ rest)
              = flat_map quote_code_point (StringToCodePoints q)
                  ++ ToUSVString rest).
  { clear p Hp. induction n as [| n IH]; intros q Hn Hq.
    - destruct q; [reflexivity | simpl in Hn; lia].
    - destruct q as [| c t]; [reflexivity |].
      cbn [is_js_string forallb] in Hq. apply andb_true_iff in Hq as [Hc Ht].
      apply N.ltb_lt in Hc. simpl in Hn.
      assert (Single :
        ToUSVString
          (flat_map quote_code_point (c :: StringToCodePoints t) ++ rest)
        = flat_map quote_code_point (c :: StringToCodePoints t)
            ++ ToUSVString rest).
      { cbn [flat_map]. rewrite <- !app_assoc.
        rewrite ToUSVString_plain
          by (apply quote_code_unit_plain; exact Hc).
        rewrite IH by (exact Ht || lia). reflexivity. }
      cbn [StringToCodePoints].
      destruct (is_leading_surrogate c) eqn:Lc; [| exact Single].
      destruct t as [| d t']; [exact Single |].
      destruct (is_trailing_surrogate d) eqn:Td; [| exact Single].
      cbn [is_js_string forallb] in Ht. apply andb_true_iff in Ht as [_ Ht'].
      cbn [flat_map]. rewrite quote_pair by assumption.
      cbn [app]. rewrite ToUSVString_pair by assumption.
      rewrite IH by (exact Ht' || (simpl in Hn; lia)). reflexivity. }
  exact (G (List.length p) p (le_n _) Hp).
Qed.

Lemma ToUSVString_prompt_body (p : js_string) :
  is_js_string p = true ->
  ToUSVString (json_text "{'prompt':" ++ QuoteJSONString p ++ str "}")
  = json_text "{'prompt':" ++ QuoteJSONString p ++ str "}".
Proof.
  intros Hp. unfold QuoteJSONString.
  rewrite ToUSVString_plain by reflexivity. f_equal.
  cbn [app]. rewrite <- app_assoc.
  rewrite ToUSVString_cons by reflexivity. f_equal.
  rewrite ToUSVString_quoted_chars by exact Hp. reflexivity.
Qed.

(* ================================================================== *)
(** ** The request body and its decoding *)

Lemma stringify_prompt_object (p : js_string) :
  JSON_stringify (VObject [(str "prompt", VString p)])
  = Returned (Some (json_text "{'prompt':" ++ QuoteJSONString p ++ str "}")).
Proof.
  unfold JSON_stringify. cbn [SerializeJSONProperty join_comma].
  rewrite <- !app_assoc. reflexivity.
Qed.

Lemma parse_prompt_object (p : js_string) :
  is_js_string p = true ->
  JSON_parse (json_text "{'prompt':" ++ QuoteJSONString p ++ str "}")
  = Some (VObject [(str "prompt", VString p)]).
Proof.
  intros Hp. unfold JSON_parse.
  set (text := json_text "{'prompt':" ++ QuoteJSONString p ++ str "}").
  assert (F : exists f, (2 * List.length text + 2 = S (S (S f)))%nat).
  { unfold text. cbn [json_text str list_ascii_of_string map app List.length].
    eexists. rewrite Nat.add_comm. cbn [Nat.add Nat.mul]. reflexivity. }
  destruct F as [f ->].
  assert (E : text = json_text "{'prompt':'"
                     ++ flat_map quote_code_point (StringToCodePoints p)
                     ++ 0x22 :: str "}").
  { unfold text, QuoteJSONString.
    change (json_text "{'prompt':'") with (json_text "{'prompt':" ++ [0x22]).
    rewrite <- app_assoc. f_equal.
    cbn [app]. rewrite <- app_assoc. reflexivity. }
  rewrite E.
  cbn -[flat_map StringToCodePoints].
  rewrite parse_quoted_chars by exact Hp.
  reflexivity.
Qed.

(* ================================================================== *)
(** ** The parser reads forward, and [JSON_parse] gives it enough fuel *)

Ltac break_match H :=
  repeat match type of H with
         | context [match ?x with _ => _ end] =>
             destruct x eqn:?; try discriminate H
         end.

Lemma skip_ws_length (s : js_string) :
  (List.length (skip_ws s) <= List.length s)%nat.
Proof.
  induction s as [| c t IH]; cbn [skip_ws]; [lia |].
  destruct (is_ws c); cbn [List.length] in *; lia.
Qed.

Lemma skip_ws_cons_length (s t : js_string) (c : code_unit) :
  skip_ws s = c :: t -> (List.length t < List.length s)%nat.
Proof.
  intros E. pose proof (skip_ws_length s) as L. rewrite E in L.
  cbn [List.length] in L. lia.
Qed.

Lemma parse_string_chars_length (s x r : js_string) :
  parse_string_chars s = Some (x, r) -> (List.length r < List.length s)%nat.
Proof.
  assert (G : forall n s x r, (List.length s <= n)%nat ->
              parse_string_chars s = Some (x, r) ->
              (List.length r < List.length s)%nat).
  { clear. induction n as [| n IH]; intros s x r Hn H.
    - destruct s; [discriminate | cbn [List.length] in Hn; lia].
    - destruct s as [| c t]; [discriminate |].
      cbn [parse_string_chars] in H. unfold cons_char in H.
      cbn [List.length] in Hn |- *.
      break_match H; injection H as <- <-;
        repeat match goal with
               | E : parse_string_chars _ = Some _ |- _ =>
                   apply IH in E; [| cbn [List.length] in *; lia]
               end;
        cbn [List.length] in *; lia. }
  apply (G (List.length s) s x r (le_n _)).
Qed.

Lemma span_digits_length (s d r : js_string) :
  span_digits s = (d, r) ->
  (List.length r + List.length d = List.length s)%nat.
Proof.
  revert d r. induction s as [| c t IH]; intros d r H; cbn [span_digits] in H.
  - injection H as <- <-. reflexivity.
  - destruct (is_digit c).
    + destruct (span_digits t) as [d' r'] eqn:E. injection H as <- <-.
      specialize (IH _ _ eq_refl). cbn [List.length]. lia.
    + injection H as <- <-. cbn [List.length]. lia.
Qed.

Lemma digits1_length (s d r : js_string) :
  digits1 s = Some (d, r) -> (List.length r < List.length s)%nat.
Proof.
  unfold digits1. destruct (span_digits s) as [d' r'] eqn:E.
  apply span_digits_length in E.
  destruct d'; [discriminate |]. intros [= <- <-].
  cbn [List.length] in E. lia.
Qed.

Ltac digits_facts :=
  repeat match goal with
         | E : (_, _) = (_, _) |- _ => injection E as <- <-
         | E : Some _ = Some _ |- _ => injection E as <- <-
         | E : span_digits _ = (_, _) |- _ => apply span_digits_length in E
         | E : digits1 _ = Some _ |- _ => apply digits1_length in E
         end;
  cbn [List.length] in *.

Lemma parse_int_length (s i r : js_string) :
  parse_int s = Some (i, r) -> (List.length r < List.length s)%nat.
Proof.
  unfold parse_int. intros H. break_match H; digits_facts; lia.
Qed.

Lemma parse_frac_length (s f r : js_string) :
  parse_frac s = Some (f, r) -> (List.length r <= List.length s)%nat.
Proof.
  unfold parse_frac. intros H. break_match H; digits_facts; lia.
Qed.

Lemma parse_exp_length (s e r : js_string) :
  parse_exp s = Some (e, r) -> (List.length r <= List.length s)%nat.
Proof.
  unfold parse_exp. intros H. break_match H; digits_facts; lia.
Qed.

Lemma parse_number_length (s lit r : js_string) :
  parse_number s = Some (lit, r) -> (List.length r < List.length s)%nat.
Proof.
  unfold parse_number. intros H.
  destruct (match s with
            | [] => ([], s)
            | c :: t => if c =? 0x2D then ([c], t) else ([], s)
            end) as [sign s0] eqn:Es.
  assert (L0 : (List.length s0 <= List.length s)%nat).
  { destruct s as [| c t]; [injection Es as <- <-; lia |].
    destruct (c =? 0x2D); injection Es as <- <-; cbn [List.length]; lia. }
  destruct (parse_int s0) as [[i s1] |] eqn:Ei; [| discriminate].
  destruct (parse_frac s1) as [[f s2] |] eqn:Ef; [| discriminate].
  destruct (parse_exp s2) as [[e s3] |] eqn:Ee; [| discriminate].
  injection H as <- <-.
  apply parse_int_length in Ei. apply parse_frac_length in Ef.
  apply parse_exp_length in Ee. lia.
Qed.

Lemma strip_prefix_length (p s r : js_string) :
  strip_prefix p s = Some r ->
  (List.length r + List.length p = List.length s)%nat.
Proof.
  revert s. induction p as [| x p IH]; intros s H; cbn [strip_prefix] in H.
  - injection H as <-. cbn [List.length]. lia.
  - destruct s as [| y s]; [discriminate |].
    destruct (x =? y); [| discriminate].
    apply IH in H. cbn [List.length]. lia.
Qed.

Lemma keyword_length (kw : string) (v v' : jsval) (s r : js_string) :
  keyword kw v s = Some (v', r) ->
  (List.length r + List.length (str kw) = List.length s)%nat.
Proof.
  unfold keyword. destruct (strip_prefix (str kw) s) eqn:E; [| discriminate].
  intros [= _ <-]. apply strip_prefix_length, E.
Qed.

(** Facts on lengths, from the equations of the context. *)
Ltac length_facts :=
  repeat match goal with
         | E : skip_ws _ = _ :: _ |- _ => apply skip_ws_cons_length in E
         | E : parse_string_chars _ = Some _ |- _ =>
             apply parse_string_chars_length in E
         | E : parse_number _ = Some _ |- _ => apply parse_number_length in E
         | E : keyword _ _ _ = Some _ |- _ =>
             apply keyword_length in E; cbn [str list_ascii_of_string map] in E
         end.

(** Every parser leaves less text than it was given. *)
Lemma parsers_length (n : nat) :
  (forall s v r, parse_value n s = Some (v, r) ->
                 (List.length r < List.length s)%nat)
  /\ (forall s vs r, parse_elements n s = Some (vs, r) ->
                     (List.length r < List.length s)%nat)
  /\ (forall acc s ps r, parse_members n acc s = Some (ps, r) ->
                         (List.length r < List.length s)%nat).
Proof.
  induction n as [| n (IHv & IHe & IHm)].
  - repeat split; intros; discriminate.
  - repeat split.
    + intros s v r H. cbn [parse_value] in H.
      break_match H; try injection H as <- <-;
        repeat match goal with
               | E : parse_members n _ _ = Some _ |- _ => apply IHm in E
               | E : parse_elements n _ = Some _ |- _ => apply IHe in E
               end;
        length_facts; cbn [List.length] in *; lia.
    + intros s vs r H. cbn [parse_elements] in H.
      break_match H; try injection H as <- <-;
        repeat match goal with
               | E : parse_value n _ = Some _ |- _ => apply IHv in E
               | E : parse_elements n _ = Some _ |- _ => apply IHe in E
               end;
        length_facts; cbn [List.length] in *; lia.
    + intros acc s ps r H. cbn [parse_members] in H.
      break_match H; try injection H as <- <-;
        repeat match goal with
               | E : parse_value n _ = Some _ |- _ => apply IHv in E
               | E : parse_members n _ _ = Some _ |- _ => apply IHm in E
               end;
        length_facts; cbn [List.length] in *; lia.
Qed.

Ltac fuel_side :=
  length_facts;
  repeat match goal with
         | E : parse_value _ _ = Some _ |- _ =>
             apply (proj1 (parsers_length _)) in E
         | E : parse_elements _ _ = Some _ |- _ =>
             apply (proj1 (proj2 (parsers_length _))) in E
         | E : parse_members _ _ _ = Some _ |- _ =>
             apply (proj2 (proj2 (parsers_length _))) in E
         end;
  cbn [List.length] in *; lia.

(** With fuel above twice the length of the text, the result of a parser
    does not depend on the fuel. *)
Lemma parsers_fuel (n : nat) :
  (forall m s, (2 * List.length s + 1 <= n)%nat ->
               (2 * List.length s + 1 <= m)%nat ->
               parse_value n s = parse_value m s)
  /\ (forall m s, (2 * List.length s + 2 <= n)%nat ->
                  (2 * List.length s + 2 <= m)%nat ->
                  parse_elements n s = parse_elements m s)
  /\ (forall m acc s, (2 * List.length s + 2 <= n)%nat ->
                      (2 * List.length s + 2 <= m)%nat ->
                      parse_members n acc s = parse_members m acc s).
Proof.
  induction n as [| n (IHv & IHe & IHm)].
  - repeat split; intros; lia.
  - repeat split.
    + intros [| m] s Hn Hm; [lia |]. cbn [parse_value].
      repeat first
        [ rewrite (IHe m) by fuel_side
        | rewrite (IHm m) by fuel_side
        | reflexivity
        | match goal with
          | |- context [match ?x with _ => _ end] => destruct x eqn:?
          end ].
    + intros [| m] s Hn Hm; [lia |]. cbn [parse_elements].
      repeat first
        [ rewrite (IHv m) by fuel_side
        | rewrite (IHe m) by fuel_side
        | reflexivity
        | match goal with
          | |- context [match ?x with _ => _ end] => destruct x eqn:?
          end ].
    + intros [| m] acc s Hn Hm; [lia |]. cbn [parse_members].
      repeat first
        [ rewrite (IHv m) by fuel_side
        | rewrite (IHm m) by fuel_side
        | reflexivity
        | match goal with
          | |- context [match ?x with _ => _ end] => destruct x eqn:?
          end ].
Qed.

(** [JSON_parse] never fails for lack of fuel: more fuel gives the same. *)
Lemma JSON_parse_fuel (text : js_string) (n : nat) :
  (2 * List.length text + 2 <= n)%nat ->
  parse_value n text = parse_value (2 * List.length text + 2) text.
Proof.
  intros H. apply (proj1 (parsers_fuel n)); lia.
Qed.

(* ================================================================== *)
(** ** One call *)

(** The program of [askAgent]: one [fetch] of a request that depends on the
    prompt through its body only, then the decoding of the response. *)
Lemma askAgent_program (p : js_string) :
  askAgent p
  = AwaitFetch (str "http://localhost:8001/agent")
      {| init_method := str "POST";
         init_headers := [(str "Content-Type", str "application/json")];
         init_body :=
           Some (json_text "{'prompt':" ++ QuoteJSONString p ++ str "}") |}
      (fun res => AwaitJson res Resolve).
Proof.
  unfold askAgent. rewrite stringify_prompt_object. reflexivity.
Qed.

Lemma askAgent_first_request (p : js_string) :
  first_request (askAgent p)
  = Some {| req_url := str "http://localhost:8001/agent";
            req_method := str "POST";
            req_headers := [(str "Content-Type", str "application/json")];
            req_body :=
              Some (ToUSVString
                      (json_text "{'prompt':" ++ QuoteJSONString p
                         ++ str "}")) |}.
Proof.
  rewrite askAgent_program. reflexivity.
Qed.

Lemma askAgent_request_fields (p : js_string) :
  exists r,
    first_request (askAgent p) = Some r
    /\ req_method r = str "POST"
    /\ req_url r = str "http://localhost:8001/agent"
    /\ req_headers r = [(str "Content-Type", str "application/json")].
Proof.
  eexists. split; [apply askAgent_first_request |].
  cbn [req_method req_url req_headers]. repeat apply conj; reflexivity.
Qed.

(** What a call makes of the network's answer to its request. *)
Lemma run_askAgent (p : js_string) (w : world) (r : Request) :
  first_request (askAgent p) = Some r ->
  run (askAgent p) w
  = match network w (issued w) r with
    | inl f => (Thrown (TransportError f), issue w r)
    | inr res =>
        match JSON_parse (res_body res) with
        | Some v => (Returned v, issue w r)
        | None => (Thrown SyntaxError, issue w r)
        end
    end.
Proof.
  rewrite askAgent_program. intros [= <-]. cbn [run new_Request].
  destruct (network w (issued w) _) as [f | res]; [reflexivity |].
  destruct (JSON_parse (res_body res)); reflexivity.
Qed.

Lemma run_askAgent_world (p : js_string) (w : world) (r : Request) :
  first_request (askAgent p) = Some r ->
  snd (run (askAgent p) w) = issue w r.
Proof.
  intros H. rewrite (run_askAgent p w r H).
  destruct (network w (issued w) r) as [f | res]; [reflexivity |].
  destruct (JSON_parse (res_body res)); reflexivity.
Qed.

(** C2: the one request of a call is a POST to the fixed address
    http://localhost:8001/agent with the header Content-Type:
    application/json, for every prompt. *)
Theorem askAgent_request_line (p : js_string) (w : world) :
  exists r,
    issued (snd (run (askAgent p) w)) = issued w ++ [r]
    /\ req_method r = str "POST"
    /\ req_url r = str "http://localhost:8001/agent"
    /\ req_headers r = [(str "Content-Type", str "application/json")].
Proof.
  destruct (askAgent_request_fields p) as (r & Hr & Hm & Hu & Hh).
  exists r. rewrite (run_askAgent_world p w r Hr).
  split; [reflexivity |]. split; [exact Hm |]. split; [exact Hu | exact Hh].
Qed.


(** C5: when the network cannot complete the request, the call throws the
    transport error and returns no value; the request was issued once and
    nothing else happened (no retry, no fallback). *)
Theorem askAgent_transport_failure
  (p : js_string) (w : world) (r : Request) (f : transport_failure) :
  first_request (askAgent p) = Some r ->
  network w (issued w) r = inl f ->
  run (askAgent p) w = (Thrown (TransportError f), issue w r).
Proof.
  intros Hr Hn. rewrite (run_askAgent p w r Hr), Hn. reflexivity.
Qed.


(** C8: the request of a call is a function of the prompt alone: in any two
    worlds, two calls issue requests with the same address, method and
    headers, and the same request when the prompts are equal. *)
Theorem askAgent_request_deterministic
  (p1 p2 : js_string) (w1 w2 : world) :
  exists r1 r2,
    issued (snd (run (askAgent p1) w1)) = issued w1 ++ [r1]
    /\ issued (snd (run (askAgent p2) w2)) = issued w2 ++ [r2]
    /\ req_url r1 = req_url r2
    /\ req_method r1 = req_method r2
    /\ req_headers r1 = req_headers r2
    /\ (p1 = p2 -> r1 = r2).
Proof.
  destruct (askAgent_request_fields p1) as (r1 & Hr1 & Hm1 & Hu1 & Hh1).
  destruct (askAgent_request_fields p2) as (r2 & Hr2 & Hm2 & Hu2 & Hh2).
  exists r1, r2.
  rewrite (run_askAgent_world p1 w1 r1 Hr1), (run_askAgent_world p2 w2 r2 Hr2).
  split; [reflexivity |]. split; [reflexivity |].
  split; [congruence |]. split; [congruence |]. split; [congruence |].
  intros ->. congruence.
Qed.

(* ================================================================== *)
(** ** Overlapping calls *)

Lemma nth_error_set_nth {A : Type} (i j : nat) (x : A) (l : list A) :
  nth_error (set_nth i x l) j
  = if Nat.eqb i j then
      match nth_error l j with Some _ => Some x | None => None end
    else nth_error l j.
Proof.
  revert i j. induction l as [| y t IH]; intros i j.
  - destruct i, j; cbn; try reflexivity. destruct (Nat.eqb i j); reflexivity.
  - destruct i as [| i], j as [| j]; cbn [set_nth nth_error Nat.eqb];
      try reflexivity.
    apply IH.
Qed.

Lemma nth_error_snoc {A : Type} (l : list A) (x y : A) (n : nat) :
  nth_error (l ++ [x]) n = Some y ->
  nth_error l n = Some y \/ (n = List.length l /\ y = x).
Proof.
  intros H. destruct (Nat.lt_ge_cases n (List.length l)) as [L | L].
  - left. rewrite nth_error_app1 in H by exact L. exact H.
  - right. rewrite nth_error_app2 in H by exact L.
    destruct (n - List.length l)%nat as [| m] eqn:E.
    + cbn in H. injection H as <-. split; [lia | reflexivity].
    + cbn in H. destruct m; discriminate.
Qed.

Lemma nth_error_snoc_old {A : Type} (l : list A) (x y : A) (n : nat) :
  nth_error l n = Some y -> nth_error (l ++ [x]) n = Some y.
Proof.
  intros H. rewrite nth_error_app1; [exact H |].
  apply nth_error_Some. rewrite H. discriminate.
Qed.

Lemma start_ok (prompts : list js_string) : system_ok prompts (start prompts).
Proof.
  constructor; cbn [start calls connections delivered].
  - intros i. rewrite nth_error_map.
    destruct (nth_error prompts i) as [p |]; cbn [option_map]; [| exact I].
    left. split; [reflexivity |]. intros conn r. destruct conn; discriminate.
  - intros conn i r H. destruct conn; discriminate.
  - intros conn conn' i r r' H. destruct conn; discriminate.
  - intros conn a [].
  - intros conn a a' [].
Qed.

(** A call stays where it is when another call opens a connection. *)
Lemma call_ok_open (conns : list (nat * Request)) (dlv : list (nat * answer))
  (i j : nat) (r : Request) (p : js_string) (c : call) :
  i <> j ->
  call_ok conns dlv j p c -> call_ok (conns ++ [(i, r)]) dlv j p c.
Proof.
  intros Hij. destruct c as [c' | conn k | o]; cbn [call_ok].
  - intros [[-> Hnone] | (conn & r0 & res & Hown & H)].
    + left. split; [reflexivity |]. intros conn r0 H.
      apply nth_error_snoc in H as [H | [_ [= E _]]];
        [exact (Hnone _ _ H) | exact (Hij (eq_sym E))].
    + right. exists conn, r0, res.
      split; [apply nth_error_snoc_old, Hown | exact H].
  - intros ([r0 Hown] & Hk & Hd). split; [| split; assumption].
    exists r0. apply nth_error_snoc_old, Hown.
  - intros (conn & r0 & a & Hown & H). exists conn, r0, a.
    split; [apply nth_error_snoc_old, Hown | exact H].
Qed.

(** Replacing the state of a call by one it can be in keeps the invariant. *)
Lemma set_call_ok (prompts : list js_string) (s : system)
  (i : nat) (p : js_string) (c : call) :
  system_ok prompts s ->
  nth_error prompts i = Some p ->
  call_ok (connections s) (delivered s) i p c ->
  system_ok prompts (set_call s i c).
Proof.
  intros [Hc Hr Ho Hd Ha] Hp Hok.
  constructor; cbn [set_call calls connections delivered]; try assumption.
  intros j. rewrite nth_error_set_nth. specialize (Hc j).
  destruct (Nat.eqb_spec i j) as [<- | Hij]; [| exact Hc].
  rewrite Hp in Hc |- *.
  destruct (nth_error (calls s) i); [exact Hok | contradiction].
Qed.

Lemma advance_ok (prompts : list js_string) (s : system) (i : nat) :
  system_ok prompts s -> system_ok prompts (advance i s).
Proof.
  intros Hs. pose proof Hs as [Hc Hr Ho Hd Ha]. unfold advance.
  destruct (nth_error (calls s) i) as [c |] eqn:Ei; [| exact Hs].
  destruct c as [c' | conn k | o]; try exact Hs.
  pose proof (Hc i) as Hi. rewrite Ei in Hi.
  destruct (nth_error prompts i) as [p |] eqn:Ep; [| contradiction].
  cbn [call_ok] in Hi.
  destruct Hi as [[-> Hnone]
                 | (conn & r & res & Hown & Hdel & [-> | (v & Hv & ->)])].
  - (* the call starts: it opens its connection *)
    rewrite askAgent_program.
    constructor; cbn [calls connections delivered].
    + intros j. rewrite nth_error_set_nth. specialize (Hc j).
      destruct (Nat.eqb_spec i j) as [<- | Hij].
      * rewrite Ei, Ep. cbn [call_ok]. split; [| split].
        -- eexists. rewrite nth_error_app2 by apply le_n.
           rewrite Nat.sub_diag. reflexivity.
        -- reflexivity.
        -- intros a Hin. apply Hd in Hin. lia.
      * destruct (nth_error (calls s) j), (nth_error prompts j); try exact Hc.
        apply call_ok_open; assumption.
    + intros conn j r H.
      apply nth_error_snoc in H as [H | [_ [= -> ->]]]; [eauto |].
      exists p. split; [exact Ep |].
      rewrite askAgent_first_request. reflexivity.
    + intros conn conn' j r r' H H'.
      apply nth_error_snoc in H as [H | [-> E]];
        apply nth_error_snoc in H' as [H' | [-> E']].
      * eauto.
      * injection E' as -> _. exfalso. exact (Hnone _ _ H).
      * injection E as -> _. exfalso. exact (Hnone _ _ H').
      * reflexivity.
    + intros conn a Hin. apply Hd in Hin. rewrite length_app. lia.
    + exact Ha.
  - (* the call decodes the body of its response *)
    destruct (JSON_parse (res_body res)) as [v |] eqn:Ev.
    + apply set_call_ok with (p := p); [exact Hs | exact Ep |].
      right. exists conn, r, res. split; [exact Hown |].
      split; [exact Hdel |]. right. exists v. split; [exact Ev | reflexivity].
    + apply set_call_ok with (p := p); [exact Hs | exact Ep |].
      exists conn, r, (inr res). split; [exact Hown |].
      split; [exact Hdel |].
      rewrite (run_askAgent p _ _ (askAgent_first_request p)).
      cbn [alone network]. rewrite Ev. reflexivity.
  - (* the call returns *)
    apply set_call_ok with (p := p); [exact Hs | exact Ep |].
    exists conn, r, (inr res). split; [exact Hown |].
    split; [exact Hdel |].
    rewrite (run_askAgent p _ _ (askAgent_first_request p)).
    cbn [alone network]. rewrite Hv. reflexivity.
Qed.

(** What [resume] makes of a call it can be in. *)
Lemma resume_ok (conns : list (nat * Request)) (dlv : list (nat * answer))
  (conn : nat) (a : answer) (i : nat) (p : js_string) (c : call) :
  call_ok conns dlv i p c ->
  call_ok conns (dlv ++ [(conn, a)]) i p (resume conn a c).
Proof.
  destruct c as [c' | conn' k | o]; cbn [call_ok resume].
  - intros [H | (conn0 & r & res & Hown & Hin & H)]; [left; exact H |].
    right. exists conn0, r, res. split; [exact Hown |].
    split; [apply in_or_app; left; exact Hin | exact H].
  - intros ([r Hown] & -> & Hnot).
    destruct (Nat.eqb_spec conn conn') as [<- | Hne].
    + destruct a as [f | res]; cbn [call_ok].
      * exists conn, r, (inl f). split; [exact Hown |].
        split; [apply in_or_app; right; left; reflexivity |].
        rewrite (run_askAgent p _ _ (askAgent_first_request p)).
        reflexivity.
      * right. exists conn, r, res. split; [exact Hown |].
        split; [apply in_or_app; right; left; reflexivity |].
        left. reflexivity.
    + cbn [call_ok]. split; [exists r; exact Hown |].
      split; [reflexivity |].
      intros a' Hin. apply in_app_or in Hin as [Hin | [[= E _] | []]].
      * exact (Hnot _ Hin).
      * exact (Hne E).
  - intros (conn0 & r & a0 & Hown & Hin & H). exists conn0, r, a0.
    split; [exact Hown |]. split; [apply in_or_app; left; exact Hin | exact H].
Qed.

Lemma deliver_ok (prompts : list js_string) (s : system)
  (conn : nat) (a : answer) :
  system_ok prompts s -> system_ok prompts (deliver conn a s).
Proof.
  intros Hs. pose proof Hs as [Hc Hr Ho Hd Ha]. unfold deliver.
  destruct (existsb (waiting conn) (calls s)) eqn:Ew; [| exact Hs].
  apply existsb_exists in Ew as (c & Hin & Hw).
  destruct c as [| conn' k |]; try discriminate Hw.
  cbn [waiting] in Hw. apply Nat.eqb_eq in Hw as <-.
  apply In_nth_error in Hin as [i Hi].
  pose proof (Hc i) as Hci. rewrite Hi in Hci.
  destruct (nth_error prompts i) as [p |]; [| contradiction].
  cbn [call_ok] in Hci. destruct Hci as ([r Hown] & _ & Hnot).
  constructor; cbn [calls connections delivered]; try assumption.
  - intros j. rewrite nth_error_map. specialize (Hc j).
    destruct (nth_error (calls s) j), (nth_error prompts j);
      cbn [option_map]; try exact Hc.
    apply resume_ok, Hc.
  - intros conn0 a0 Hin. apply in_app_or in Hin as [Hin | [[= <- _] | []]].
    + exact (Hd _ _ Hin).
    + apply nth_error_Some. rewrite Hown. discriminate.
  - intros conn0 a0 a0' H H'.
    apply in_app_or in H as [H | [E | []]];
      apply in_app_or in H' as [H' | [E' | []]].
    + exact (Ha _ _ _ H H').
    + injection E' as <- _. exfalso. exact (Hnot _ H).
    + injection E as <- _. exfalso. exact (Hnot _ H').
    + congruence.
Qed.

Lemma exec_ok (prompts : list js_string) (evs : list event) (s : system) :
  system_ok prompts s -> system_ok prompts (exec evs s).
Proof.
  revert s. induction evs as [| e evs IH]; intros s Hs; [exact Hs |].
  cbn [exec fold_left]. apply IH.
  destruct e as [i | conn a]; [apply advance_ok | apply deliver_ok]; exact Hs.
Qed.

(** C7: two overlapping calls are independent.  Whatever the interleaving
    of their steps and whatever the network answers, a call that has settled
    opened one connection, its own, carrying its own request; the network
    delivered one answer on that connection; and the call settled with what
    it makes of that answer when it runs alone: nothing of the other call
    reaches it. *)
Theorem concurrent_calls_independent
  (p1 p2 : js_string) (evs : list event)
  (i : nat) (p : js_string) (o : outcome jsval) :
  nth_error [p1; p2] i = Some p ->
  nth_error (calls (overlap p1 p2 evs)) i = Some (Settled o) ->
  exists conn r a,
    nth_error (connections (overlap p1 p2 evs)) conn = Some (i, r)
    /\ first_request (askAgent p) = Some r
    /\ (forall conn' r',
          nth_error (connections (overlap p1 p2 evs)) conn' = Some (i, r') ->
          conn' = conn)
    /\ (forall j r',
          nth_error (connections (overlap p1 p2 evs)) conn = Some (j, r') ->
          j = i)
    /\ In (conn, a) (delivered (overlap p1 p2 evs))
    /\ (forall a', In (conn, a') (delivered (overlap p1 p2 evs)) -> a' = a)
    /\ o = fst (run (askAgent p) (alone a)).
Proof.
  intros Hp Hi.
  pose proof (exec_ok [p1; p2] evs _ (start_ok [p1; p2])) as Hs.
  fold (overlap p1 p2 evs) in Hs.
  destruct Hs as [Hc Hr Ho Hd Ha].
  specialize (Hc i). rewrite Hi, Hp in Hc. cbn [call_ok] in Hc.
  destruct Hc as (conn & r & a & Hown & Hin & ->).
  exists conn, r, a. repeat apply conj.
  - exact Hown.
  - destruct (Hr _ _ _ Hown) as (p' & Hp' & Hreq).
    rewrite Hp in Hp'. injection Hp' as <-. exact Hreq.
  - intros conn' r' H. exact (Ho _ _ _ _ _ H Hown).
  - intros j r' H. rewrite Hown in H. injection H as <- _. reflexivity.
  - exact Hin.
  - intros a' H. exact (Ha _ _ _ H Hin).
  - reflexivity.
Qed.


(* ================================================================== *)
(** ** Further properties of a call *)

Lemma askAgent_request_body (p : js_string) (r : Request) :
  is_js_string p = true ->
  first_request (askAgent p) = Some r ->
  req_body r = Some (json_text "{'prompt':" ++ QuoteJSONString p ++ str "}").
Proof.
  intros Hp Hr. rewrite askAgent_first_request in Hr.
  rewrite <- (ToUSVString_prompt_body p Hp).
  injection Hr as <-. reflexivity.
Qed.

(** X1: two different prompts never give the same request body: the agent
    can tell any two prompts apart. *)
Theorem askAgent_distinct_prompts_distinct_bodies
  (p1 p2 : js_string) (r1 r2 : Request) :
  is_js_string p1 = true -> is_js_string p2 = true ->
  first_request (askAgent p1) = Some r1 ->
  first_request (askAgent p2) = Some r2 ->
  p1 <> p2 -> req_body r1 <> req_body r2.
Proof.
  intros H1 H2 Hr1 Hr2 Hne Hb. apply Hne.
  rewrite (askAgent_request_body p1 r1 H1 Hr1) in Hb.
  rewrite (askAgent_request_body p2 r2 H2 Hr2) in Hb.
  apply (f_equal (fun o => match o with
                           | Some b => JSON_parse b
                           | None => None
                           end)) in Hb.
  cbv beta iota in Hb.
  rewrite !parse_prompt_object in Hb by assumption.
  congruence.
Qed.








Lemma ToUSVString_length (s : js_string) :
  List.length (ToUSVString s) = List.length s.
Proof.
  assert (G : forall n q, (List.length q <= n)%nat ->
              List.length (ToUSVString q) = List.length q).
  { induction n as [| n IH]; intros q Hn.
    - destruct q; [reflexivity | cbn [List.length] in Hn; lia].
    - destruct q as [| c t]; [reflexivity |].
      cbn [List.length] in Hn. cbn [ToUSVString].
      destruct (is_leading_surrogate c).
      + destruct t as [| d t']; [reflexivity |].
        cbn [List.length] in Hn.
        destruct (is_trailing_surrogate d); cbn [List.length].
        * rewrite (IH t') by lia. reflexivity.
        * rewrite (IH (d :: t')) by (cbn [List.length]; lia). reflexivity.
      + destruct (is_trailing_surrogate c); cbn [List.length];
          rewrite (IH t) by lia; reflexivity. }
  exact (G (List.length s) s (le_n _)).
Qed.

Lemma quote_code_point_length (c : N) :
  (1 <= List.length (quote_code_point c) <= 6)%nat.
Proof.
  unfold quote_code_point, UnicodeEscape, UTF16EncodeCodePoint.
  destruct (single_char_escape c); [cbn [List.length]; lia |].
  destruct ((c <? 0x20) || is_leading_surrogate c || is_trailing_surrogate c);
    [cbn [List.length]; lia |].
  destruct (c <=? 0xFFFF); cbn [List.length]; lia.
Qed.

(** Quoting writes one to six code units for each code unit of a string. *)
Lemma quoted_chars_length (p : js_string) :
  (List.length p
   <= List.length (flat_map quote_code_point (StringToCodePoints p))
   <= 6 * List.length p)%nat.
Proof.
  assert (G : forall n q, (List.length q <= n)%nat ->
              (List.length q
               <= List.length (flat_map quote_code_point (StringToCodePoints q))
               <= 6 * List.length q)%nat).
  { induction n as [| n IH]; intros q Hn.
    - destruct q; [cbn; lia | cbn [List.length] in Hn; lia].
    - destruct q as [| c t]; [cbn; lia |].
      cbn [List.length] in Hn.
      assert (Single :
        (List.length (c :: t)
         <= List.length
              (flat_map quote_code_point (c :: StringToCodePoints t))
         <= 6 * List.length (c :: t))%nat).
      { cbn [flat_map]. rewrite length_app. cbn [List.length].
        pose proof (quote_code_point_length c).
        pose proof (IH t ltac:(lia)). lia. }
      cbn [StringToCodePoints].
      destruct (is_leading_surrogate c) eqn:Lc; [| exact Single].
      destruct t as [| d t']; [exact Single |].
      destruct (is_trailing_surrogate d) eqn:Td; [| exact Single].
      cbn [flat_map]. rewrite (quote_pair c d Lc Td), length_app.
      cbn [List.length] in Hn |- *.
      pose proof (IH t' ltac:(lia)). lia. }
  exact (G (List.length p) p (le_n _)).
Qed.

(** X3: the body of the request is never shorter than the prompt plus the
    13 code units of the object around it, and never longer than six times
    the prompt plus 13: escaping enlarges a prompt at most sixfold. *)
Theorem askAgent_body_size (p : js_string) (w : world) :
  exists r body,
    issued (snd (run (askAgent p) w)) = issued w ++ [r]
    /\ req_body r = Some body
    /\ (List.length p + 13 <= List.length body <= 6 * List.length p + 13)%nat.
Proof.
  do 2 eexists.
  rewrite (run_askAgent_world p w _ (askAgent_first_request p)).
  cbn [issue issued req_body]. split; [reflexivity |].
  split; [reflexivity |].
  rewrite ToUSVString_length. unfold QuoteJSONString.
  rewrite !length_app. cbn [List.length]. rewrite length_app.
  change (List.length (json_text "{'prompt':")) with 10%nat.
  change (List.length (str "}")) with 1%nat. cbn [List.length].
  pose proof (quoted_chars_length p). lia.
Qed.



(* ================================================================== *)
(** ** Further properties of overlapping calls *)

Lemma owners_NoDup (conns : list (nat * Request)) :
  (forall conn conn' i r r',
     nth_error conns conn = Some (i, r) ->
     nth_error conns conn' = Some (i, r') -> conn = conn') ->
  NoDup (map fst conns).
Proof.
  intros H. apply NoDup_nth_error. intros c c' Hc E.
  rewrite length_map in Hc. rewrite !nth_error_map in E.
  destruct (nth_error conns c) as [[i r] |] eqn:E1;
    [| apply nth_error_None in E1; lia].
  destruct (nth_error conns c') as [[i' r'] |] eqn:E2; [| discriminate E].
  cbn [option_map fst] in E. injection E as <-.
  exact (H _ _ _ _ _ E1 E2).
Qed.

(** X4: whatever the number of overlapping calls and the interleaving, no
    call calls [fetch] a second time: there are never more exchanges of
    [fetch] (the connections of this model) than calls, every exchange
    carries the request its call gave to [fetch], and no call has two.  The
    HTTP requests [fetch] sends within one exchange, when it follows
    redirects, are not counted here. *)
Theorem overlapping_calls_one_request_each
  (prompts : list js_string) (evs : list event) :
  (List.length (connections (exec evs (start prompts)))
   <= List.length prompts)%nat
  /\ (forall conn i r,
        nth_error (connections (exec evs (start prompts))) conn = Some (i, r) ->
        exists p, nth_error prompts i = Some p
                  /\ first_request (askAgent p) = Some r)
  /\ (forall conn conn' i r r',
        nth_error (connections (exec evs (start prompts))) conn = Some (i, r) ->
        nth_error (connections (exec evs (start prompts))) conn'
        = Some (i, r') ->
        conn = conn').
Proof.
  destruct (exec_ok prompts evs _ (start_ok prompts)) as [Hc Hr Ho Hd Ha].
  split; [| split; assumption].
  assert (L : (List.length
                 (map fst (connections (exec evs (start prompts))))
               <= List.length (seq 0 (List.length prompts)))%nat);
    [| rewrite length_map, length_seq in L; exact L].
  apply NoDup_incl_length; [apply owners_NoDup, Ho |].
  intros i Hi. apply in_map_iff in Hi as ([i' r] & E & Hin).
  cbn [fst] in E. subst i'. apply In_nth_error in Hin as [conn Hconn].
  destruct (Hr _ _ _ Hconn) as (p & Hp & _).
  apply in_seq. split; [lia |]. cbn [Nat.add].
  apply nth_error_Some. rewrite Hp. discriminate.
Qed.

(** X5: the result of a call does not depend on the interleaving.  When the
    server answers each request by itself, a call that settles among any
    number of overlapping calls settles with the result of the same call
    made alone to that server. *)
Theorem overlapping_calls_as_alone
  (server : Request -> answer) (prompts : list js_string) (evs : list event)
  (i : nat) (p : js_string) (o : outcome jsval) :
  answered_by server (exec evs (start prompts)) ->
  nth_error prompts i = Some p ->
  nth_error (calls (exec evs (start prompts))) i = Some (Settled o) ->
  o = fst (run (askAgent p) (server_world server)).
Proof.
  intros Hserver Hp Hi.
  destruct (exec_ok prompts evs _ (start_ok prompts)) as [Hc Hr Ho Hd Ha].
  specialize (Hc i). rewrite Hi, Hp in Hc. cbn [call_ok] in Hc.
  destruct Hc as (conn & r & a & Hown & Hin & ->).
  pose proof (Hserver _ _ _ _ Hin Hown) as Ea. subst a.
  destruct (Hr _ _ _ Hown) as (p' & Hp' & Hreq).
  rewrite Hp in Hp'. injection Hp' as <-.
  rewrite !(run_askAgent p _ r Hreq). cbn [alone server_world network].
  destruct (server r) as [f | res]; [reflexivity |].
  destruct (JSON_parse (res_body res)); reflexivity.
Qed.

Lemma exec_app (evs more : list event) (s : system) :
  exec (evs ++ more) s = exec more (exec evs s).
Proof.
  apply fold_left_app.
Qed.

(** The state of a call after the event loop has run it. *)
Lemma advance_call (s : system) (i : nat) (c : call) :
  nth_error (calls s) i = Some c ->
  nth_error (calls (advance i s)) i
  = Some match c with
         | Running (Resolve v) => Settled (Returned v)
         | Running (Reject e) => Settled (Thrown e)
         | Running (AwaitFetch url init k) =>
             AwaitingFetch (List.length (connections s)) k
         | Running (AwaitJson res k) =>
             match JSON_parse (res_body res) with
             | Some v => Running (k v)
             | None => Settled (Thrown SyntaxError)
             end
         | _ => c
         end.
Proof.
  intros H. unfold advance. rewrite H.
  destruct c as [[v | e | url init k | res k] | conn k | o];
    try exact H;
    try destruct (JSON_parse (res_body res));
    cbn [set_call calls]; rewrite nth_error_set_nth, Nat.eqb_refl, H;
    reflexivity.
Qed.

(** The state of a call after the answer to its request has come. *)
Lemma deliver_call (s : system) (i conn : nat) (a : answer)
  (k : Response -> async jsval) :
  nth_error (calls s) i = Some (AwaitingFetch conn k) ->
  nth_error (calls (deliver conn a s)) i
  = Some match a with
         | inl f => Settled (Thrown (TransportError f))
         | inr res => Running (k res)
         end.
Proof.
  intros H. unfold deliver.
  assert (E : existsb (waiting conn) (calls s) = true).
  { apply existsb_exists. exists (AwaitingFetch conn k).
    split; [exact (nth_error_In _ _ H) |].
    cbn [waiting]. apply Nat.eqb_refl. }
  rewrite E. cbn [calls]. rewrite nth_error_map, H.
  cbn [option_map resume]. rewrite Nat.eqb_refl. reflexivity.
Qed.

(** A call whose answer has come runs to its end in two steps. *)
Lemma answered_call_settles (s : system) (i : nat) (p : js_string)
  (a : answer) :
  nth_error (calls s) i
  = Some match a with
         | inl f => Settled (Thrown (TransportError f))
         | inr res => Running (AwaitJson res Resolve)
         end ->
  nth_error (calls (exec [Advance i; Advance i] s)) i
  = Some (Settled (fst (run (askAgent p) (alone a)))).
Proof.
  intros H. cbn [exec fold_left step].
  rewrite (run_askAgent p _ _ (askAgent_first_request p)).
  cbn [alone network]. destruct a as [f | res].
  - apply advance_call in H. cbn iota in H.
    apply advance_call in H. exact H.
  - apply advance_call in H.
    destruct (JSON_parse (res_body res)) as [v |].
    + apply advance_call in H. exact H.
    + apply advance_call in H. exact H.
Qed.

(** X6: no call can be blocked by the others.  Whatever has happened, every
    call can still settle within four events, and a call whose request has
    not been answered yet can settle with what it makes of any answer [a]
    of the network. *)
Theorem overlapping_calls_can_settle
  (prompts : list js_string) (evs : list event)
  (i : nat) (p : js_string) (a : answer) :
  nth_error prompts i = Some p ->
  exists more o,
    (List.length more <= 4)%nat
    /\ nth_error (calls (exec (evs ++ more) (start prompts))) i
       = Some (Settled o)
    /\ ((forall conn r a',
           nth_error (connections (exec evs (start prompts))) conn
           = Some (i, r) ->
           ~ In (conn, a') (delivered (exec evs (start prompts)))) ->
        o = fst (run (askAgent p) (alone a))).
Proof.
  intros Hp.
  pose proof (exec_ok prompts evs _ (start_ok prompts)) as Hs.
  set (s := exec evs (start prompts)) in *.
  destruct Hs as [Hc Hr Ho Hd Ha].
  specialize (Hc i). rewrite Hp in Hc.
  destruct (nth_error (calls s) i) as [c |] eqn:Ei; [| contradiction].
  destruct c as [c' | conn k | o]; cbn [call_ok] in Hc.
  - destruct Hc as [[-> _]
                   | (conn & r & res & Hown & Hdel & [-> | (v & Hv & ->)])].
    + (* not started *)
      exists [Advance i; Deliver (List.length (connections s)) a;
              Advance i; Advance i].
      eexists. split; [cbn [List.length]; lia |]. split; [| reflexivity].
      rewrite exec_app. fold s.
      change (exec [Advance i; Deliver (List.length (connections s)) a;
                    Advance i; Advance i] s)
        with (exec [Advance i; Advance i]
                (deliver (List.length (connections s)) a (advance i s))).
      apply answered_call_settles.
      rewrite askAgent_program in Ei. apply advance_call in Ei.
      apply (deliver_call _ _ _ a) in Ei. rewrite Ei.
      destruct a; reflexivity.
    + (* answered, the body not decoded yet *)
      exists [Advance i; Advance i]. eexists.
      split; [cbn [List.length]; lia |]. split.
      * rewrite exec_app. fold s.
        apply (answered_call_settles s i p (inr res)). exact Ei.
      * intros Hnot. exfalso. exact (Hnot _ _ _ Hown Hdel).
    + (* about to return *)
      exists [Advance i]. eexists.
      split; [cbn [List.length]; lia |]. split.
      * rewrite exec_app. fold s. cbn [exec fold_left step].
        apply advance_call in Ei. exact Ei.
      * intros Hnot. exfalso. exact (Hnot _ _ _ Hown Hdel).
  - (* waiting for the answer *)
    destruct Hc as (_ & -> & _).
    exists [Deliver conn a; Advance i; Advance i]. eexists.
    split; [cbn [List.length]; lia |]. split; [| reflexivity].
    rewrite exec_app. fold s.
    change (exec [Deliver conn a; Advance i; Advance i] s)
      with (exec [Advance i; Advance i] (deliver conn a s)).
    apply answered_call_settles.
    apply (deliver_call _ _ _ a) in Ei. rewrite Ei.
    destruct a; reflexivity.
  - (* settled *)
    destruct Hc as (conn & r & a0 & Hown & Hdel & _).
    exists [], o. split; [cbn [List.length]; lia |]. split.
    + rewrite app_nil_r. exact Ei.
    + intros Hnot. exfalso. exact (Hnot _ _ _ Hown Hdel).
Qed.


(* ================================================================== *)
(** ** One call on the wire *)

Lemma stringify_bounded_prompt (p : js_string) :
  JSON_stringify_bounded (VObject [(str "prompt", VString p)])
  = if fits (json_text "{'prompt':" ++ QuoteJSONString p ++ str "}")
    then Returned
           (Some (json_text "{'prompt':" ++ QuoteJSONString p ++ str "}"))
    else Thrown RangeError.
Proof.
  unfold JSON_stringify_bounded. rewrite stringify_prompt_object.
  reflexivity.
Qed.

(** The text [JSON.stringify] gives for the prompt object, when strings are
    not bounded. *)
Lemma stringify_prompt_text (p text : js_string) :
  JSON_stringify (VObject [(str "prompt", VString p)]) = Returned (Some text)
  -> text = json_text "{'prompt':" ++ QuoteJSONString p ++ str "}".
Proof.
  rewrite stringify_prompt_object. intros [= <-]. reflexivity.
Qed.

(** On an engine that can hold the text, the client is the same program. *)
Lemma askAgent_bounded_fits (p : js_string) :
  fits (json_text "{'prompt':" ++ QuoteJSONString p ++ str "}") = true ->
  askAgent_bounded p = askAgent p.
Proof.
  intros H. unfold askAgent_bounded, askAgent.
  rewrite stringify_bounded_prompt, H, stringify_prompt_object. reflexivity.
Qed.

Lemma askAgent_bounded_too_long (p : js_string) :
  fits (json_text "{'prompt':" ++ QuoteJSONString p ++ str "}") = false ->
  askAgent_bounded p = Reject RangeError.
Proof.
  intros H. unfold askAgent_bounded.
  rewrite stringify_bounded_prompt, H. reflexivity.
Qed.

(** A program that has a first request has been given a text that fits. *)
Lemma askAgent_bounded_request (p : js_string) (r : Request) :
  first_request (askAgent_bounded p) = Some r ->
  askAgent_bounded p = askAgent p /\ first_request (askAgent p) = Some r.
Proof.
  intros H.
  destruct (fits (json_text "{'prompt':" ++ QuoteJSONString p ++ str "}"))
    eqn:F.
  - rewrite (askAgent_bounded_fits p F) in H |- *. split; [reflexivity | exact H].
  - rewrite (askAgent_bounded_too_long p F) in H. discriminate H.
Qed.

Lemma preflight_step_frame (r : Request) (W : wire) :
  fetched (snd (preflight_step r W)) = fetched W
  /\ http (snd (preflight_step r W)) = http W
  /\ body_transfer (snd (preflight_step r W)) = body_transfer W.
Proof.
  unfold preflight_step.
  destruct (preflight platform (sent W) r) as [o |];
    [| repeat split; reflexivity].
  destruct (http W (sent W) o) as [f | res]; [repeat split; reflexivity |].
  destruct (preflight_check platform r res); repeat split; reflexivity.
Qed.

(** [fetch] changes nothing of the wire but the requests sent. *)
Lemma http_fetch_frame (n : nat) (r : Request) (W : wire) :
  fetched (snd (http_fetch n r W)) = fetched W
  /\ http (snd (http_fetch n r W)) = http W
  /\ body_transfer (snd (http_fetch n r W)) = body_transfer W.
Proof.
  revert r W.
  assert (Step : forall (rec : Request -> wire -> answer * wire),
            (forall r W, fetched (snd (rec r W)) = fetched W
                         /\ http (snd (rec r W)) = http W
                         /\ body_transfer (snd (rec r W)) = body_transfer W) ->
            forall r W,
              let out :=
                match preflight_step r W with
                | (Some f, W1) => (inl f, W1)
                | (None, W1) =>
                    match http W1 (sent W1) r with
                    | inl f => (inl f, send W1 r)
                    | inr res =>
                        if negb (cors_check platform r res)
                        then (inl CorsFailure, send W1 r)
                        else if redirect_status (res_status res) then
                          match location_url platform (req_url r)
                                  (res_headers res) with
                          | NoLocation => (inr res, send W1 r)
                          | BadLocation => (inl BadRedirect, send W1 r)
                          | Location url =>
                              rec (redirect_request (res_status res) url r)
                                (send W1 r)
                          end
                        else (inr res, send W1 r)
                    end
                end in
              fetched (snd out) = fetched W
              /\ http (snd out) = http W
              /\ body_transfer (snd out) = body_transfer W).
  { intros rec Hrec r W.
    pose proof (preflight_step_frame r W) as P.
    destruct (preflight_step r W) as [[f |] W1]; cbn [snd] in P;
      cbn zeta; [exact P |].
    destruct P as (P1 & P2 & P3).
    destruct (http W1 (sent W1) r) as [f | res];
      [cbn [snd send fetched http body_transfer]; auto |].
    destruct (negb (cors_check platform r res));
      [cbn [snd send fetched http body_transfer]; auto |].
    destruct (redirect_status (res_status res));
      [| cbn [snd send fetched http body_transfer]; auto].
    destruct (location_url platform (req_url r) (res_headers res))
      as [| | url];
      [cbn [snd send fetched http body_transfer]; auto
      | cbn [snd send fetched http body_transfer]; auto |].
    destruct (Hrec (redirect_request (res_status res) url r) (send W1 r))
      as (H1 & H2 & H3).
    exact (conj (eq_trans H1 P1) (conj (eq_trans H2 P2) (eq_trans H3 P3))). }
  induction n as [| n IH]; intros r W.
  - exact (Step (fun r W => (inl TooManyRedirects, W))
             (fun _ _ => conj eq_refl (conj eq_refl eq_refl)) r W).
  - exact (Step (http_fetch n) IH r W).
Qed.



(** What a call makes of what its one [fetch] gives. *)
Lemma run_http_askAgent (p : js_string) (W : wire) (r : Request) :
  first_request (askAgent_bounded p) = Some r ->
  run_http (askAgent_bounded p) W
  = match http_fetch 20 r (call_fetch W r) with
    | (inl f, W') => (Thrown (TransportError f), W')
    | (inr res, W') =>
        match body_transfer W res with
        | Some f => (Thrown (TransportError f), W')
        | None =>
            match JSON_parse (res_body res) with
            | Some v => (Returned v, W')
            | None => (Thrown SyntaxError, W')
            end
        end
    end.
Proof.
  intros Hr. destruct (askAgent_bounded_request p r Hr) as [-> Hr'].
  rewrite askAgent_program in Hr' |- *. injection Hr' as <-.
  cbn [run_http].
  pose proof (http_fetch_frame 20
                (new_Request (str "http://localhost:8001/agent")
                   {| init_method := str "POST";
                      init_headers :=
                        [(str "Content-Type", str "application/json")];
                      init_body :=
                        Some (json_text "{'prompt':" ++ QuoteJSONString p
                                ++ str "}") |})
                (call_fetch W
                   (new_Request (str "http://localhost:8001/agent")
                      {| init_method := str "POST";
                         init_headers :=
                           [(str "Content-Type", str "application/json")];
                         init_body :=
                           Some (json_text "{'prompt':" ++ QuoteJSONString p
                                   ++ str "}") |})))
    as (_ & _ & F).
  destruct (http_fetch 20 _ _) as [[f | res] W']; [reflexivity |].
  cbn [snd call_fetch body_transfer] in F. rewrite F.
  destruct (body_transfer W res); [reflexivity |].
  destruct (JSON_parse (res_body res)); reflexivity.
Qed.

(** On the wire the client gives what it gives in a [world] that answers
    with what its one [fetch] and the reading of the body give. *)
Lemma run_http_as_run (p : js_string) (W : wire) (r : Request) :
  first_request (askAgent_bounded p) = Some r ->
  fst (run_http (askAgent_bounded p) W)
  = fst (run (askAgent p) (alone (fetch_answer W r))).
Proof.
  intros Hr. rewrite (run_http_askAgent p W r Hr).
  destruct (askAgent_bounded_request p r Hr) as [_ Hr'].
  rewrite (run_askAgent p _ r Hr'). cbn [alone network]. unfold fetch_answer.
  destruct (http_fetch 20 r (call_fetch W r)) as [[f | res] W'];
    [reflexivity |].
  cbn [fst]. destruct (body_transfer W res); [reflexivity |].
  destruct (JSON_parse (res_body res)); reflexivity.
Qed.


Lemma prompt_text_length (p : js_string) :
  (List.length p + 13
   <= List.length (json_text "{'prompt':" ++ QuoteJSONString p ++ str "}")
   <= 6 * List.length p + 13)%nat.
Proof.
  unfold QuoteJSONString.
  rewrite !length_app. cbn [List.length]. rewrite length_app.
  change (List.length (json_text "{'prompt':")) with 10%nat.
  change (List.length (str "}")) with 1%nat. cbn [List.length].
  pose proof (quoted_chars_length p). lia.
Qed.




(** C10, as amended: building the request cannot fail for a prompt whose
    JSON text the engine can hold: [JSON.stringify] returns the text and
    the program reaches its [fetch]; a call that throws then throws the
    transport error of its [fetch] or of the reading of the body, or the
    decoding error of a body that is not valid JSON, and nothing else.  For
    a longer text [JSON.stringify] throws a [RangeError] and the call ends
    with it before any request. *)
Theorem askAgent_bounded_failure_points (p text : js_string) :
  JSON_stringify (VObject [(str "prompt", VString p)]) = Returned (Some text)
  ->
  (fits text = true ->
   JSON_stringify_bounded (VObject [(str "prompt", VString p)])
   = Returned (Some text)
   /\ (exists url init k, askAgent_bounded p = AwaitFetch url init k)
   /\ forall W,
        match fst (run_http (askAgent_bounded p) W) with
        | Returned _ => True
        | Thrown (TransportError f) =>
            exists r,
              first_request (askAgent_bounded p) = Some r
              /\ (fst (http_fetch 20 r (call_fetch W r)) = inl f
                  \/ exists res,
                       fst (http_fetch 20 r (call_fetch W r)) = inr res
                       /\ body_transfer W res = Some f)
        | Thrown SyntaxError =>
            exists r res,
              first_request (askAgent_bounded p) = Some r
              /\ fst (http_fetch 20 r (call_fetch W r)) = inr res
              /\ body_transfer W res = None
              /\ JSON_parse (res_body res) = None
        | Thrown TypeError => False
        | Thrown RangeError => False
        end)
  /\ (fits text = false ->
      JSON_stringify_bounded (VObject [(str "prompt", VString p)])
      = Thrown RangeError
      /\ forall W, run_http (askAgent_bounded p) W = (Thrown RangeError, W)).
Proof.
  intros Ht. apply stringify_prompt_text in Ht. subst text. split.
  - intros Hf.
    split; [rewrite stringify_bounded_prompt, Hf; reflexivity |].
    split; [do 3 eexists; rewrite (askAgent_bounded_fits p Hf);
            apply askAgent_program |].
    intros W.
    assert (Hr : first_request (askAgent_bounded p)
                 = first_request (askAgent p))
      by (rewrite (askAgent_bounded_fits p Hf); reflexivity).
    destruct (askAgent_request_fields p) as (r & Hr' & _).
    rewrite Hr' in Hr. rewrite (run_http_askAgent p W r Hr).
    destruct (http_fetch 20 r (call_fetch W r)) as [[f | res] W'] eqn:E.
    + cbn [fst]. exists r. split; [exact Hr |]. left.
      rewrite E. reflexivity.
    + destruct (body_transfer W res) as [f |] eqn:B.
      * cbn [fst]. exists r. split; [exact Hr |]. right. exists res.
        rewrite E. split; [reflexivity | exact B].
      * destruct (JSON_parse (res_body res)) eqn:J; cbn [fst]; [exact I |].
        exists r, res. rewrite E.
        split; [exact Hr |]. split; [reflexivity |].
        split; [exact B | exact J].
  - intros Hf.
    split; [rewrite stringify_bounded_prompt, Hf; reflexivity |].
    intros W. rewrite (askAgent_bounded_too_long p Hf). reflexivity.
Qed.

End AgentClient.


(* ================================================================== *)
(** ** Examples on literal numbers *)

Abbreviation JSON_parse_lit := (JSON_parse literal literal_of_string).
Abbreviation JSON_stringify_lit :=
  (JSON_stringify literal literal_to_string literal_is_finite).
Abbreviation askAgent_lit :=
  (askAgent literal literal_to_string literal_is_finite).
Abbreviation run_lit := (run literal literal_of_string).
Abbreviation first_request_lit := (first_request literal).
Abbreviation overlap_lit :=
  (overlap literal literal_of_string literal_to_string literal_is_finite).
Abbreviation Obj := (VObject literal).
Abbreviation Str := (VString literal).
Abbreviation Num := (VNumber literal).

Example QuoteJSONString_escaped_prompt :
  QuoteJSONString escaped_prompt
  = json_text "'\'\\\n\u0001" ++ [0xD83D; 0xDE00] ++ json_text "\udc00A'".
Proof. reflexivity. Qed.

Example ToUSVString_lone_surrogate :
  ToUSVString escaped_prompt
  = [0x22; 0x5C; 0x0A; 0x01; 0xD83D; 0xDE00; 0xFFFD; 0x41].
Proof. reflexivity. Qed.

Example JSON_parse_nested :
  JSON_parse_lit (json_text " [1, -2.5e+3, 'a\u00e9\n', {'k': [true, null]}] ")
  = Some (VArray literal
            [ Num (str "1"); Num (str "-2.5e+3"); Str [0x61; 0xE9; 0x0A];
              Obj [(str "k", VArray literal [VBool literal true;
                                             VNull literal])] ]).
Proof. reflexivity. Qed.

(** Of two members with the same key the later gives the value, and keys
    that are array indices come first, in ascending order. *)
Example JSON_parse_keys :
  JSON_parse_lit (json_text "{'b':1,'10':2,'9':3,'b':null,'01':4}")
  = Some (Obj [ (str "9", Num (str "3")); (str "10", Num (str "2"));
                (str "b", VNull literal); (str "01", Num (str "4")) ]).
Proof. reflexivity. Qed.

Example JSON_parse_rejects :
  map JSON_parse_lit
    [ str ""; str "[1,]"; str "01"; str "1."; str "nul"; str "true false";
      json_text "'a"; json_text "{'a':1,}"; json_text "{a:1}";
      json_text "'\x'"; [0x22; 0x09; 0x22] ]
  = repeat None 11.
Proof. reflexivity. Qed.

Example JSON_stringify_skips_undefined :
  JSON_stringify_lit
    (VArray literal
       [ VUndefined literal;
         Obj [(str "a", VUndefined literal); (str "b", VBool literal true)] ])
  = Returned (Some (json_text "[null,{'b':true}]")).
Proof. reflexivity. Qed.

Example JSON_stringify_throws_on_bigint :
  JSON_stringify_lit (Obj [(str "n", VBigInt literal 1)]) = Thrown TypeError.
Proof. reflexivity. Qed.


(** C5 at a connection that is refused. *)
Lemma askAgent_transport_failure_witness :
  first_request_lit (askAgent_lit hello_prompt) = Some hello_request
  /\ network (alone (inl ConnectionRefused))
       (issued (alone (inl ConnectionRefused))) hello_request
     = inl ConnectionRefused
  /\ run_lit (askAgent_lit hello_prompt) (alone (inl ConnectionRefused))
     = (Thrown (TransportError ConnectionRefused),
        issue (alone (inl ConnectionRefused)) hello_request).
Proof.
  split; [reflexivity |]. split; [reflexivity |].
  apply (askAgent_transport_failure literal literal_of_string
           literal_to_string literal_is_finite hello_prompt
           (alone (inl ConnectionRefused)) hello_request ConnectionRefused);
    reflexivity.
Defined.


(** C7 at two calls answered in the order opposite to their requests: the
    first call settles with the answer to its own request. *)
Lemma concurrent_calls_independent_witness :
  nth_error [hello_prompt; str "other"] 0 = Some hello_prompt
  /\ nth_error (calls literal
                  (overlap_lit hello_prompt (str "other") crossed_schedule)) 0
     = Some (Settled literal (Returned (Obj [(str "ok", VBool literal true)])))
  /\ exists conn r a,
       nth_error (connections literal
                    (overlap_lit hello_prompt (str "other") crossed_schedule))
         conn = Some (0%nat, r)
       /\ first_request_lit (askAgent_lit hello_prompt) = Some r
       /\ (forall conn' r',
             nth_error (connections literal
                          (overlap_lit hello_prompt (str "other")
                             crossed_schedule)) conn' = Some (0%nat, r') ->
             conn' = conn)
       /\ (forall j r',
             nth_error (connections literal
                          (overlap_lit hello_prompt (str "other")
                             crossed_schedule)) conn = Some (j, r') ->
             j = 0%nat)
       /\ In (conn, a)
            (delivered literal
               (overlap_lit hello_prompt (str "other") crossed_schedule))
       /\ (forall a',
             In (conn, a')
               (delivered literal
                  (overlap_lit hello_prompt (str "other") crossed_schedule)) ->
             a' = a)
       /\ Returned (Obj [(str "ok", VBool literal true)])
          = fst (run_lit (askAgent_lit hello_prompt) (alone a)).
Proof.
  split; [reflexivity |]. split; [reflexivity |].
  apply (concurrent_calls_independent literal literal_of_string
           literal_to_string literal_is_finite hello_prompt (str "other")
           crossed_schedule 0 hello_prompt);
    reflexivity.
Defined.

(* ================================================================== *)
(** ** Examples of the further properties *)

Abbreviation exec_lit := (exec literal literal_of_string).
Abbreviation start_lit :=
  (start literal literal_to_string literal_is_finite).

(** X1 at the prompts hello and other. *)
Lemma askAgent_distinct_prompts_distinct_bodies_witness :
  is_js_string hello_prompt = true
  /\ is_js_string (str "other") = true
  /\ first_request_lit (askAgent_lit hello_prompt) = Some hello_request
  /\ first_request_lit (askAgent_lit (str "other")) = Some other_request
  /\ hello_prompt <> str "other"
  /\ req_body hello_request <> req_body other_request.
Proof.
  assert (D : hello_prompt <> str "other") by discriminate.
  do 4 (split; [reflexivity |]). split; [exact D |].
  apply (askAgent_distinct_prompts_distinct_bodies literal literal_of_string
           literal_to_string literal_is_finite hello_prompt (str "other")
           hello_request other_request);
    (reflexivity || exact D).
Defined.



(** X5 at two calls answered in the order opposite to their requests. *)
Lemma overlapping_calls_as_alone_witness :
  answered_by literal hello_server
    (exec_lit crossed_schedule (start_lit [hello_prompt; str "other"]))
  /\ nth_error [hello_prompt; str "other"] 0 = Some hello_prompt
  /\ nth_error
       (calls literal
          (exec_lit crossed_schedule (start_lit [hello_prompt; str "other"])))
       0
     = Some (Settled literal (Returned (Obj [(str "ok", VBool literal true)])))
  /\ Returned (Obj [(str "ok", VBool literal true)])
     = fst (run_lit (askAgent_lit hello_prompt) (server_world hello_server)).
Proof.
  assert (A : answered_by literal hello_server
                (exec_lit crossed_schedule
                   (start_lit [hello_prompt; str "other"]))).
  { intros conn a i r Hin Hconn.
    destruct Hin as [E | [E | []]]; injection E as <- <-;
      injection Hconn as _ <-; reflexivity. }
  split; [exact A |]. split; [reflexivity |]. split; [reflexivity |].
  apply (overlapping_calls_as_alone literal literal_of_string
           literal_to_string literal_is_finite hello_server
           [hello_prompt; str "other"] crossed_schedule 0 hello_prompt);
    (exact A || reflexivity).
Defined.

(** X6 at two calls that have both started and wait for their answers. *)
Lemma overlapping_calls_can_settle_witness :
  nth_error [hello_prompt; str "other"] 0 = Some hello_prompt
  /\ exists more o,
       (List.length more <= 4)%nat
       /\ nth_error
            (calls literal
               (exec_lit ([Advance 0; Advance 1] ++ more)
                  (start_lit [hello_prompt; str "other"]))) 0
          = Some (Settled literal o)
       /\ ((forall conn r a',
              nth_error
                (connections literal
                   (exec_lit [Advance 0; Advance 1]
                      (start_lit [hello_prompt; str "other"]))) conn
              = Some (0%nat, r) ->
              ~ In (conn, a')
                  (delivered literal
                     (exec_lit [Advance 0; Advance 1]
                        (start_lit [hello_prompt; str "other"])))) ->
           o = fst (run_lit (askAgent_lit hello_prompt)
                      (alone (inr ok_response)))).
Proof.
  split; [reflexivity |].
  apply (overlapping_calls_can_settle literal literal_of_string
           literal_to_string literal_is_finite
           [hello_prompt; str "other"] [Advance 0; Advance 1] 0 hello_prompt
           (inr ok_response)).
  reflexivity.
Defined.

(* ================================================================== *)
(** ** Examples on the wire *)

Abbreviation run_http_plain := (run_http literal literal_of_string plain_platform).
Abbreviation askAgent_plain :=
  (askAgent_bounded literal literal_to_string literal_is_finite
     plain_platform).
Abbreviation JSON_stringify_plain :=
  (JSON_stringify_bounded literal literal_to_string literal_is_finite
     plain_platform).

Lemma iter_cons_length (n : N) (c : code_unit) :
  N.of_nat (List.length (N.iter n (cons c) [])) = n.
Proof.
  induction n as [| n IH] using N.peano_ind; [reflexivity |].
  rewrite N.iter_succ. cbn [List.length].
  rewrite Nat2N.inj_succ, IH. reflexivity.
Qed.

Lemma iter_cons_is_js_string (n : N) (c : code_unit) :
  is_code_unit c = true -> is_js_string (N.iter n (cons c) []) = true.
Proof.
  intros H. induction n as [| n IH] using N.peano_ind; [reflexivity |].
  rewrite N.iter_succ. cbn [is_js_string forallb].
  rewrite H. exact IH.
Qed.

(** A string of the greatest length, or longer, has no JSON text that
    fits. *)
Lemma long_prompt_does_not_fit (n : N) (c : code_unit) :
  max_string_length plain_platform <= n ->
  fits plain_platform
    (json_text "{'prompt':" ++ QuoteJSONString (N.iter n (cons c) [])
       ++ str "}")
  = false.
Proof.
  intros H. unfold fits. apply N.leb_gt.
  pose proof (prompt_text_length (N.iter n (cons c) [])) as [L _].
  pose proof (iter_cons_length n c) as E.
  set (p := N.iter n (cons c) []) in *.
  set (m := max_string_length plain_platform) in *.
  lia.
Qed.

Lemma longest_prompt_does_not_fit :
  fits plain_platform
    (json_text "{'prompt':" ++ QuoteJSONString longest_prompt ++ str "}")
  = false.
Proof.
  exact (long_prompt_does_not_fit 536870888 0x61 (N.le_refl _)).
Qed.




(** C10 as stated fails at a string of the greatest length: its JSON text
    is longer than the longest string, [JSON.stringify] throws a
    [RangeError] and the call ends before any request. *)
Lemma askAgent_failure_points_counterexample :
  is_js_string longest_prompt = true
  /\ N.of_nat (List.length longest_prompt) = max_string_length plain_platform
  /\ JSON_stringify_plain (Obj [(str "prompt", Str longest_prompt)])
     = Thrown RangeError
  /\ run_http_plain (askAgent_plain longest_prompt) (wire_of moved_server)
     = (Thrown RangeError, wire_of moved_server)
  /\ ~ (exists body,
          JSON_stringify_plain (Obj [(str "prompt", Str longest_prompt)])
          = Returned (Some body)).
Proof.
  assert (E : JSON_stringify_plain (Obj [(str "prompt", Str longest_prompt)])
              = Thrown RangeError).
  { rewrite stringify_bounded_prompt, longest_prompt_does_not_fit.
    reflexivity. }
  split; [apply iter_cons_is_js_string; reflexivity |].
  split; [apply iter_cons_length |].
  split; [exact E |].
  split.
  - rewrite (askAgent_bounded_too_long literal literal_to_string
               literal_is_finite plain_platform longest_prompt
               longest_prompt_does_not_fit).
    reflexivity.
  - intros [body H]. rewrite E in H. discriminate H.
Qed.


(** The same call, seen on the wire: one request sent. *)
Example askAgent_one_request_sent :
  sent (snd (run_http_plain (askAgent_plain hello_prompt)
               (wire_of (fun _ _ => inr ok_response))))
  = [hello_request].
Proof. reflexivity. Qed.



(** C10, as amended, at the prompt hello, whose text fits. *)
Lemma askAgent_bounded_failure_points_witness :
  JSON_stringify_lit (Obj [(str "prompt", Str hello_prompt)])
  = Returned (Some (json_text "{'prompt':'hello'}"))
  /\ fits plain_platform (json_text "{'prompt':'hello'}") = true
  /\ JSON_stringify_plain (Obj [(str "prompt", Str hello_prompt)])
     = Returned (Some (json_text "{'prompt':'hello'}")).
Proof.
  split; [reflexivity |]. split; [reflexivity |].
  exact (proj1 (proj1 (askAgent_bounded_failure_points literal
                         literal_of_string literal_to_string
                         literal_is_finite plain_platform hello_prompt
                         (json_text "{'prompt':'hello'}") eq_refl)
                  eq_refl)).
Defined.
